(** * c_data_structures: plain and strict arrays with a fallible-result protocol

    A shallow embedding of the header-only C library
    (utils/status.h, utils/Result.h, int/Array.h, generic/Array.h,
    int/StrictArray.h, generic/StrictArray.h) and the properties its
    specification states about it.

    Conventions of the embedding:
    - [size_t] is a [Z] in [0, 2^64); every [size_t] product and sum is
      reduced modulo 2^64 where the C code computes it (LP64 layout:
      [sizeof(size_t) = 8], [sizeof(int) = 4]);
    - a pointer is a value of type [pointer]; [NULL] is the absent
      indicator;
    - memory obtained from [malloc] is a block in a [heap]; its payload
      cells start out indeterminate ([None]) and its header fields hold
      the arbitrary value [junk] until the code assigns them;
    - undefined behaviour (dereferencing a null or dangling pointer, an
      access outside a block, signed overflow) is the outcome [Fault].

    [free] hands the bytes of a released block back to the allocator. *)

From Stdlib Require Import ZArith Lia String Ascii List.
From Stdlib.Init Require Import Byte.
From stdpp Require Import base option list gmap.

Open Scope Z_scope.

(** ** Outcomes: a computation returns a value or runs into undefined behaviour *)

Inductive outcome (A : Type) : Type :=
| Done (a : A)
| Fault.
Arguments Done {A} a.
Arguments Fault {A}.

#[global] Instance outcome_ret : MRet outcome := fun _ a => Done a.
#[global] Instance outcome_bind : MBind outcome := fun _ _ f m =>
  match m with
  | Done a => f a
  | Fault => Fault
  end.

(** ** Machine integers *)

Definition SIZE_MAX : Z := 2 ^ 64 - 1.
Definition INT_MAX : Z := 2 ^ 31 - 1.
Definition sizeof_int : Z := 4.

(** The value of a [size_t] expression: arithmetic modulo [SIZE_MAX + 1]. *)
Definition size_t (z : Z) : Z := z mod (SIZE_MAX + 1).

Definition is_size_t (z : Z) : Prop := 0 <= z <= SIZE_MAX.

(** ** Pointers *)

Definition loc := positive.

Inductive pointer : Type :=
| NULL                        (* the null pointer *)
| Lit (s : string)            (* the address of a string literal *)
| Block (l : loc)             (* the address of a heap block *)
| Elem (l : loc) (off : Z).   (* [block->data + off] *)

#[global] Instance pointer_eq_dec : EqDecision pointer.
Proof. solve_decision. Defined.

(** [!p] in C. *)
Definition is_null (p : pointer) : bool :=
  match p with NULL => true | _ => false end.

(** ** utils/status.h *)

(** The header with the seven codes the containers use; an older copy
    of it stops at [NO_SPACE]. *)
Module status.

Inductive status_t : Type :=
| NO_ERROR | SEGFAULT | NO_SPACE | INVALID_SIZE | HEAP_FAILURE
| INVALID_INSTANCE | INVALID_INDEX.

#[global] Instance status_eq_dec : EqDecision status_t.
Proof. solve_decision. Defined.

(** The enumerators count up from [NO_ERROR = 0]. *)
Definition code (s : status_t) : Z :=
  match s with
  | NO_ERROR => 0 | SEGFAULT => 1 | NO_SPACE => 2 | INVALID_SIZE => 3
  | HEAP_FAILURE => 4 | INVALID_INSTANCE => 5 | INVALID_INDEX => 6
  end.

End status.
Export status.

(** ** utils/Result.h *)

Module result.

(** [struct Result]: the anonymous union of [error_msg] and [data] is one
    pointer-sized word, read through either member. *)
Record Result : Type := mkResult { ok : status_t; word : pointer }.

Definition error_msg (r : Result) : pointer := word r.
Definition data (r : Result) : pointer := word r.

(** A function of type [const char *] either returns a pointer or reaches
    its closing brace without a [return] statement. *)
Inductive returned : Type :=
| Return (p : pointer)
| NoValue.

Definition nl : string := String (ascii_of_nat 10) EmptyString.

(** A pointer to a caller's variable ([Result *from], [void **to]):
    [None] is the null pointer, [Some v] a variable currently holding
    [v].  Reading or writing through it needs the variable to exist. *)
Definition slot := option pointer.

Definition absent {A} (p : option A) : bool :=
  match p with None => true | Some _ => false end.

Definition read {A} (p : option A) : outcome A :=
  match p with None => Fault | Some v => Done v end.

Definition write_slot (to : slot) (v : pointer) : outcome slot :=
  match to with
  | None => Fault
  | Some _ => Done (Some v)
  end.

(** [const char *get_data_p(Result *from, void **to)].  Returns the
    slot [*to] as the call leaves it, and the pointer returned. *)
Definition get_data_p (from : option Result) (to : slot)
  : outcome (slot * pointer) :=
  if absent from || absent to then
    Done (to, Lit ("ValueError: cannot access a null pointer." ++ nl))
  else
    r ← read from;
    if decide (ok r ≠ NO_ERROR) then
      to' ← write_slot to NULL;
      Done (to', error_msg r)
    else
      to' ← write_slot to (data r);
      Done (to', NULL).

(** [const char *get_data(Result from, void **to)].  The success branch
    assigns [*to] and then reaches the end of the function: there is no
    [return] on that path. *)
Definition get_data (from : Result) (to : slot)
  : outcome (slot * returned) :=
  if absent to then Done (to, Return NULL)
  else if decide (ok from ≠ NO_ERROR) then Done (to, Return (error_msg from))
  else
    to' ← write_slot to (data from);
    Done (to', NoValue).

End result.
Export result.

(** ** The heap *)

Section heap.
Context {T : Type}.

(** [blocks] are the live allocations, [room] the number of bytes the
    allocator can still hand out, [junk] the value found in a header
    field that was never assigned, and [stdout] the integers printed
    with [%d] so far ([None] for an indeterminate one). *)
Record heap : Type := mkHeap {
  blocks : gmap loc T;
  room : Z;
  junk : Z;
  stdout : list (option Z)
}.

(** [malloc(n)]: the address of a fresh block, or nothing (a null
    pointer) when the request cannot be satisfied. *)
Definition malloc (h : heap) (n : Z) : option loc :=
  if n <=? room h then Some (fresh (dom (blocks h))) else None.

(** The heap once the block of [n] bytes at [l] holds [v]. *)
Definition allocated (h : heap) (l : loc) (n : Z) (v : T) : heap :=
  mkHeap (<[l := v]> (blocks h)) (room h - n) (junk h) (stdout h).

(** Reading the object a handle points to. *)
Definition deref (h : heap) (p : pointer) : outcome T :=
  match p with
  | Block l =>
      match blocks h !! l with
      | Some v => Done v
      | None => Fault
      end
  | _ => Fault
  end.

(** Writing the object a handle points to. *)
Definition store (h : heap) (p : pointer) (v : T) : outcome heap :=
  match p with
  | Block l =>
      match blocks h !! l with
      | Some _ => Done (mkHeap (<[l := v]> (blocks h)) (room h) (junk h) (stdout h))
      | None => Fault
      end
  | _ => Fault
  end.

(** The heap once [out] has been written to standard output. *)
Definition print (h : heap) (out : list (option Z)) : heap :=
  mkHeap (blocks h) (room h) (junk h) (stdout h ++ out).

(** [free(p)]: nothing happens for a null pointer; for the address of a
    live block the block is released and its bytes ([bytes] gives the
    size of the block an object occupies) return to the allocator;
    anything else is undefined. *)
Definition free (bytes : T -> Z) (h : heap) (p : pointer) : outcome heap :=
  match p with
  | NULL => Done h
  | Block l =>
      match blocks h !! l with
      | Some v => Done (mkHeap (delete l (blocks h)) (room h + bytes v)
                          (junk h) (stdout h))
      | None => Fault
      end
  | _ => Fault
  end.

End heap.
Arguments heap T : clear implicits.

(** Copying [n] cells from [src] into [dst] at cell offset [off].
    [src] is [None] for a null source pointer; copying nothing reads
    nothing. *)
Definition memcpy {A} (dst : list A) (off : Z) (src : option (list A)) (n : Z)
  : outcome (list A) :=
  if n =? 0 then Done dst
  else
    match src with
    | None => Fault
    | Some s =>
        if (n <=? Z.of_nat (length s)) && (off + n <=? Z.of_nat (length dst)) then
          Done (take (Z.to_nat off) dst ++ take (Z.to_nat n) s
                  ++ drop (Z.to_nat (off + n)) dst)
        else Fault
    end.

(** [block->data + off] for a handle [p]: address arithmetic only, no
    memory is read.  Every caller has read [*p] before. *)
Definition data_at (p : pointer) (off : Z) : pointer :=
  match p with
  | Block l => Elem l off
  | _ => NULL
  end.

(** ** int/Array.h *)

Module int_Array.

(** An [int] object in memory: a value, or indeterminate. *)
Definition cell := option Z.

(** [struct Array_int { size_t capacity; int data[]; }] *)
Record Array_int : Type := mkArray_int { capacity : Z; data : list cell }.

Definition sizeof_Array_int : Z := 8.

(** A block of [n] bytes as [malloc] leaves it, seen as an [Array_int]:
    the payload has room for as many [int]s as fit behind the header. *)
Definition raw (junk n : Z) : outcome Array_int :=
  if n <? sizeof_Array_int then Fault
  else Done (mkArray_int junk
               (replicate (Z.to_nat ((n - sizeof_Array_int) / sizeof_int)) None)).

Definition new_Array_int (h : heap Array_int) (data : option (list cell))
    (size capacity : Z) : outcome (heap Array_int * Result) :=
  let size := if absent data then 0 else size in
  if capacity <? size then
    Done (h, mkResult INVALID_SIZE
               (Lit ("SizeError: size is negative or capacity is less than size" ++ nl)))
  else
    let n := size_t (sizeof_Array_int + size_t (capacity * sizeof_int)) in
    match malloc h n with
    | None =>
        Done (h, mkResult HEAP_FAILURE
                   (Lit "AllocationError: Not enough memory in the heap"))
    | Some l =>
        result ← raw (junk h) n;
        let result := mkArray_int capacity (int_Array.data result) in
        d ← memcpy (int_Array.data result) 0 data
              (size_t (size * sizeof_int) / sizeof_int);
        Done (allocated h l n (mkArray_int (int_Array.capacity result) d),
              mkResult NO_ERROR (Block l))
    end.

Definition from_Array_int (h : heap Array_int) (from : pointer)
  : outcome (heap Array_int * Result) :=
  if is_null from then
    Done (h, mkResult SEGFAULT
               (Lit ("ValueError: cannot access a null pointer" ++ nl)))
  else
    a ← deref h from;
    new_Array_int h (Some (data a)) (capacity a) (capacity a).

Definition get_item_Array_int (h : heap Array_int) (from : pointer) (index : Z)
  : outcome pointer :=
  if is_null from then Done NULL
  else
    a ← deref h from;
    if (index <? 0) || (capacity a <=? index) then Done NULL
    else Done (data_at from index).

(** Reading the [int] an element pointer designates. *)
Definition load (h : heap Array_int) (p : pointer) : outcome cell :=
  match p with
  | Elem l i =>
      a ← deref h (Block l);
      if i <? 0 then Fault
      else match data a !! Z.to_nat i with
           | Some c => Done c
           | None => Fault
           end
  | _ => Fault
  end.

(** The representation invariant of a constructed container: the
    payload holds exactly [capacity] elements and the block fits the
    address space. *)
Definition wf (a : Array_int) : Prop :=
  0 <= capacity a /\
  Z.of_nat (length (data a)) = capacity a /\
  sizeof_Array_int + capacity a * sizeof_int <= SIZE_MAX.

(** The number of bytes requested for a container of [capacity] elements. *)
Definition request (capacity : Z) : Z :=
  size_t (sizeof_Array_int + size_t (capacity * sizeof_int)).

(** The bytes of the block a container occupies. *)
Definition block_size (a : Array_int) : Z :=
  sizeof_Array_int + sizeof_int * Z.of_nat (length (data a)).

(** [void free_Array_int(Array_int **to_delete)]; returns the caller's
    handle variable as the call leaves it. *)
Definition free_Array_int (h : heap Array_int) (to_delete : slot)
  : outcome (heap Array_int * slot) :=
  if absent to_delete then Done (h, to_delete)
  else
    p ← read to_delete;
    if is_null p then Done (h, to_delete)
    else
      h' ← free block_size h p;
      to_delete' ← write_slot to_delete NULL;
      Done (h', to_delete').

End int_Array.

(** ** generic/Array.h *)

Module generic_Array.

(** A [char] object in memory: a value, or indeterminate. *)
Definition cell := option byte.

(** [struct Array { size_t capacity, type_size; char data[]; }] *)
Record Array : Type := mkArray { capacity : Z; type_size : Z; data : list cell }.

Definition sizeof_Array : Z := 16.

Definition raw (junk n : Z) : outcome Array :=
  if n <? sizeof_Array then Fault
  else Done (mkArray junk junk (replicate (Z.to_nat (n - sizeof_Array)) None)).

Definition new_Array (h : heap Array) (data : option (list cell))
    (size capacity type_size : Z) : outcome (heap Array * Result) :=
  let size := if absent data then 0 else size in
  if capacity <? size then
    Done (h, mkResult INVALID_SIZE
               (Lit ("SizeError: size is negative or capacity is less than size" ++ nl)))
  else if type_size <=? 0 then
    Done (h, mkResult INVALID_SIZE
               (Lit ("SizeError: Type cannot have less than 1 byte" ++ nl)))
  else
    let n := size_t (sizeof_Array + size_t (capacity * type_size)) in
    match malloc h n with
    | None =>
        Done (h, mkResult HEAP_FAILURE
                   (Lit "AllocationError: Not enough memory in the heap"))
    | Some l =>
        result ← raw (junk h) n;
        let result := mkArray capacity type_size (generic_Array.data result) in
        d ← memcpy (generic_Array.data result) 0 data (size_t (size * type_size));
        Done (allocated h l n
                (mkArray (generic_Array.capacity result)
                         (generic_Array.type_size result) d),
              mkResult NO_ERROR (Block l))
    end.

Definition from_Array (h : heap Array) (from : pointer)
  : outcome (heap Array * Result) :=
  if is_null from then
    Done (h, mkResult SEGFAULT
               (Lit ("ValueError: cannot access a null pointer" ++ nl)))
  else
    a ← deref h from;
    new_Array h (Some (data a)) (capacity a) (capacity a) (type_size a).

Definition get_item_Array (h : heap Array) (from : pointer) (index : Z)
  : outcome pointer :=
  if is_null from then Done NULL
  else
    a ← deref h from;
    if (index <? 0) || (capacity a <=? index) then Done NULL
    else Done (data_at from (size_t (index * type_size a))).

(** The bytes of the element an element pointer designates. *)
Definition load (h : heap Array) (p : pointer) : outcome (list cell) :=
  match p with
  | Elem l off =>
      a ← deref h (Block l);
      if (off <? 0) || (Z.of_nat (length (data a)) <? off + type_size a) then Fault
      else Done (take (Z.to_nat (type_size a)) (drop (Z.to_nat off) (data a)))
  | _ => Fault
  end.

Definition wf (a : Array) : Prop :=
  0 <= capacity a /\ 1 <= type_size a /\
  Z.of_nat (length (data a)) = capacity a * type_size a /\
  sizeof_Array + capacity a * type_size a <= SIZE_MAX.

Definition request (capacity type_size : Z) : Z :=
  size_t (sizeof_Array + size_t (capacity * type_size)).

(** The bytes of the block a container occupies. *)
Definition block_size (a : Array) : Z :=
  sizeof_Array + Z.of_nat (length (data a)).

(** [void free_Array(Array **to_delete)]; returns the caller's handle
    variable as the call leaves it. *)
Definition free_Array (h : heap Array) (to_delete : slot)
  : outcome (heap Array * slot) :=
  if absent to_delete then Done (h, to_delete)
  else
    p ← read to_delete;
    if is_null p then Done (h, to_delete)
    else
      h' ← free block_size h p;
      to_delete' ← write_slot to_delete NULL;
      Done (h', to_delete').

End generic_Array.

(** ** int/StrictArray.h *)

Module int_StrictArray.

Definition cell := option Z.

(** [struct StrictArray_int { size_t size, capacity; int data[]; }] *)
Record StrictArray_int : Type :=
  mkStrictArray_int { size : Z; capacity : Z; data : list cell }.

Definition sizeof_StrictArray_int : Z := 16.

Definition raw (junk n : Z) : outcome StrictArray_int :=
  if n <? sizeof_StrictArray_int then Fault
  else Done (mkStrictArray_int junk junk
               (replicate (Z.to_nat ((n - sizeof_StrictArray_int) / sizeof_int)) None)).

(** The body of [for (int i = 0; i < size; i++) printf("%d, ", data[i])]
    over the indices it visits: every index is read from [data]. *)
Fixpoint print_loop (data : list cell) (idx : list nat) : outcome (list cell) :=
  match idx with
  | [] => Done []
  | i :: idx' =>
      match data !! i with
      | None => Fault
      | Some c => out ← print_loop data idx'; Done (c :: out)
      end
  end.

(** The whole loop: its counter is an [int], so it cannot count up to a
    [size] above [INT_MAX]. *)
Definition print_elements (data : option (list cell)) (size : Z)
  : outcome (list cell) :=
  if INT_MAX <? size then Fault
  else print_loop (default [] data) (seq 0 (Z.to_nat size)).

Definition new_StrictArray_int (h : heap StrictArray_int)
    (data : option (list cell)) (size cap : Z)
  : outcome (heap StrictArray_int * Result) :=
  let size := if absent data then 0 else size in
  if (size <? 0) || (cap <? size) then
    Done (h, mkResult INVALID_SIZE
               (Lit ("SizeError: size is negative or capacity is less than size" ++ nl)))
  else
    let n := size_t (sizeof_StrictArray_int + size_t (sizeof_int * cap)) in
    match malloc h n with
    | None =>
        Done (h, mkResult HEAP_FAILURE
                   (Lit "AllocationError: Not enough memory in the heap"))
    | Some l =>
        result ← raw (junk h) n;
        let result := mkStrictArray_int size cap (int_StrictArray.data result) in
        d ← memcpy (int_StrictArray.data result) 0 data
              (size_t (size * sizeof_int) / sizeof_int);
        out ← print_elements data size;
        Done (print (allocated h l n
                       (mkStrictArray_int (int_StrictArray.size result)
                                          (capacity result) d)) out,
              mkResult NO_ERROR (Block l))
    end.

Definition from_StrictArray_int (h : heap StrictArray_int) (from : pointer)
  : outcome (heap StrictArray_int * Result) :=
  if is_null from then
    Done (h, mkResult SEGFAULT
               (Lit ("ValueError: cannot access a null pointer" ++ nl)))
  else
    a ← deref h from;
    let n := size_t (sizeof_StrictArray_int + size_t (capacity a * sizeof_int)) in
    match malloc h n with
    | None =>
        Done (h, mkResult HEAP_FAILURE
                   (Lit ("AllocationError: Not enough memory in the heap" ++ nl)))
    | Some l =>
        result ← raw (junk h) n;
        let result := mkStrictArray_int (size a) (capacity a)
                        (int_StrictArray.data result) in
        d ← memcpy (data result) 0 (Some (data a))
              (size_t (capacity a * sizeof_int) / sizeof_int);
        Done (allocated h l n (mkStrictArray_int (size result) (capacity result) d),
              mkResult NO_ERROR (Block l))
    end.

Definition push_back_StrictArray_int (h : heap StrictArray_int)
    (arr : pointer) (data : Z) : outcome (heap StrictArray_int * status_t) :=
  if is_null arr then Done (h, SEGFAULT)
  else
    a ← deref h arr;
    let size := int_StrictArray.size a in
    let cap := capacity a in
    if size =? cap then Done (h, NO_SPACE)
    else
      (* arr->data[size] = data *)
      if Z.of_nat (length (int_StrictArray.data a)) <=? size then Fault
      else
        let d := <[Z.to_nat size := Some data]> (int_StrictArray.data a) in
        (* arr->size++ *)
        h' ← store h arr (mkStrictArray_int (size_t (int_StrictArray.size a + 1))
                            (capacity a) d);
        Done (h', NO_ERROR).

Definition pop_back_StrictArray_int (h : heap StrictArray_int) (arr : pointer)
  : outcome (heap StrictArray_int) :=
  if is_null arr then Done h
  else
    a ← deref h arr;
    if size a =? 0 then Done h
    else store h arr (mkStrictArray_int (size_t (size a - 1)) (capacity a) (data a)).

Definition clear_StrictArray_int (h : heap StrictArray_int) (arr : pointer)
  : outcome (heap StrictArray_int) :=
  if is_null arr then Done h
  else
    a ← deref h arr;
    store h arr (mkStrictArray_int 0 (capacity a) (data a)).

(** [index < 0 || index >= arr->size]: the second operand, the only one
    that reads [*arr], is evaluated when the first is false. *)
Definition get_item_StrictArray_int (h : heap StrictArray_int)
    (arr : pointer) (index : Z) : outcome pointer :=
  out_of_bounds ← (if index <? 0 then Done true
                   else a ← deref h arr; Done (size a <=? index));
  if (out_of_bounds : bool) then Done NULL
  else Done (data_at arr index).

Definition load (h : heap StrictArray_int) (p : pointer) : outcome cell :=
  match p with
  | Elem l i =>
      a ← deref h (Block l);
      if i <? 0 then Fault
      else match data a !! Z.to_nat i with
           | Some c => Done c
           | None => Fault
           end
  | _ => Fault
  end.

(** The representation invariant: [size <= capacity], the payload holds
    exactly [capacity] elements and the block fits the address space. *)
Definition wf (a : StrictArray_int) : Prop :=
  0 <= size a <= capacity a /\
  Z.of_nat (length (data a)) = capacity a /\
  sizeof_StrictArray_int + capacity a * sizeof_int <= SIZE_MAX.


(** The number of bytes requested for a container of [cap] elements. *)
Definition request (cap : Z) : Z :=
  size_t (sizeof_StrictArray_int + size_t (sizeof_int * cap)).

(** [arr] designates a well-formed container of capacity [cap]. *)
Definition invariant (h : heap StrictArray_int) (arr : pointer) (cap : Z) : Prop :=
  exists a, deref h arr = Done a /\ wf a /\ capacity a = cap.

(** The operations applied to a container after construction. *)
Inductive op : Type :=
| Append (value : Z)
| RemoveLast
| Clear.

Definition apply_op (h : heap StrictArray_int) (arr : pointer) (o : op)
  : outcome (heap StrictArray_int) :=
  match o with
  | Append v => r ← push_back_StrictArray_int h arr v; Done r.1
  | RemoveLast => pop_back_StrictArray_int h arr
  | Clear => clear_StrictArray_int h arr
  end.

(** The heaps observed after each operation of a sequence, in order. *)
Fixpoint run (h : heap StrictArray_int) (arr : pointer) (ops : list op)
  : outcome (list (heap StrictArray_int)) :=
  match ops with
  | [] => Done []
  | o :: ops' =>
      h' ← apply_op h arr o;
      tr ← run h' arr ops';
      Done (h' :: tr)
  end.

(** [push_back] called once per value, with the status of every call. *)
Fixpoint append_all (h : heap StrictArray_int) (arr : pointer) (values : list Z)
  : outcome (heap StrictArray_int * list status_t) :=
  match values with
  | [] => Done (h, [])
  | v :: values' =>
      r ← push_back_StrictArray_int h arr v;
      rs ← append_all r.1 arr values';
      Done (rs.1, r.2 :: rs.2)
  end.

(** The bytes of the block a container occupies. *)
Definition block_size (a : StrictArray_int) : Z :=
  sizeof_StrictArray_int + sizeof_int * Z.of_nat (length (data a)).

(** [void free_StrictArray_int(StrictArray_int **arr)]: only [arr]
    itself is tested; [free] is handed [*arr] whatever it is. *)
Definition free_StrictArray_int (h : heap StrictArray_int) (arr : slot)
  : outcome (heap StrictArray_int * slot) :=
  if absent arr then Done (h, arr)
  else
    p ← read arr;
    h' ← free block_size h p;
    arr' ← write_slot arr NULL;
    Done (h', arr').

End int_StrictArray.

(** ** generic/StrictArray.h *)

Module generic_StrictArray.

Definition cell := option byte.

(** [struct StrictArray { size_t size, capacity, type_size; char data[]; }] *)
Record StrictArray : Type :=
  mkStrictArray { size : Z; capacity : Z; type_size : Z; data : list cell }.

Definition sizeof_StrictArray : Z := 24.

Definition raw (junk n : Z) : outcome StrictArray :=
  if n <? sizeof_StrictArray then Fault
  else Done (mkStrictArray junk junk junk
               (replicate (Z.to_nat (n - sizeof_StrictArray)) None)).

Definition new_StrictArray (h : heap StrictArray) (data : option (list cell))
    (type_size size cap : Z) : outcome (heap StrictArray * Result) :=
  let size := if absent data then 0 else size in
  if (size <? 0) || (cap <? size) then
    Done (h, mkResult INVALID_SIZE
               (Lit ("SizeError: Size is negative or capacity is less than size" ++ nl)))
  else if type_size <=? 0 then
    Done (h, mkResult INVALID_SIZE
               (Lit ("SizeError: Type cannot have less than 1 byte" ++ nl)))
  else
    let n := size_t (sizeof_StrictArray + size_t (type_size * cap)) in
    match malloc h n with
    | None =>
        Done (h, mkResult HEAP_FAILURE
                   (Lit "AllocationError: Not enough memory in the heap"))
    | Some l =>
        result ← raw (junk h) n;
        let result := mkStrictArray size cap type_size
                        (generic_StrictArray.data result) in
        d ← memcpy (generic_StrictArray.data result) 0 data
              (size_t (size * type_size));
        Done (allocated h l n
                (mkStrictArray (generic_StrictArray.size result)
                   (capacity result) (generic_StrictArray.type_size result) d),
              mkResult NO_ERROR (Block l))
    end.

(** [result->type_size] is not assigned on this path: the field keeps
    what [malloc] left in it. *)
Definition from_StrictArray (h : heap StrictArray) (from : pointer)
  : outcome (heap StrictArray * Result) :=
  if is_null from then
    Done (h, mkResult SEGFAULT
               (Lit ("ValueError: cannot access a null pointer" ++ nl)))
  else
    a ← deref h from;
    let n := size_t (sizeof_StrictArray + size_t (capacity a * type_size a)) in
    match malloc h n with
    | None =>
        Done (h, mkResult HEAP_FAILURE
                   (Lit ("AllocationError: Not enough memory in the heap" ++ nl)))
    | Some l =>
        result ← raw (junk h) n;
        let result := mkStrictArray (size a) (capacity a) (type_size result)
                        (data result) in
        d ← memcpy (data result) 0 (Some (data a))
              (size_t (size a * type_size a));
        Done (allocated h l n
                (mkStrictArray (size result) (capacity result)
                   (type_size result) d),
              mkResult NO_ERROR (Block l))
    end.

(** [arr->size] and [arr->type_size] are read in the declaration that
    opens the function, before [arr] is tested. *)
Definition push_back_StrictArray (h : heap StrictArray) (arr : pointer)
    (value : option (list cell)) : outcome (heap StrictArray * status_t) :=
  a ← deref h arr;
  let size := generic_StrictArray.size a in
  let type_size := generic_StrictArray.type_size a in
  if is_null arr then Done (h, SEGFAULT)
  else if size =? capacity a then Done (h, NO_SPACE)
  else
    d ← memcpy (data a) (size_t (type_size * size)) value type_size;
    (* arr->size++ *)
    h' ← store h arr (mkStrictArray (size_t (generic_StrictArray.size a + 1))
                        (capacity a) (generic_StrictArray.type_size a) d);
    Done (h', NO_ERROR).

Definition pop_back_StrictArray (h : heap StrictArray) (arr : pointer)
  : outcome (heap StrictArray) :=
  if is_null arr then Done h
  else
    a ← deref h arr;
    if size a =? 0 then Done h
    else store h arr (mkStrictArray (size_t (size a - 1)) (capacity a)
                        (type_size a) (data a)).

Definition clear_StrictArray (h : heap StrictArray) (arr : pointer)
  : outcome (heap StrictArray) :=
  if is_null arr then Done h
  else
    a ← deref h arr;
    store h arr (mkStrictArray 0 (capacity a) (type_size a) (data a)).

(** [index < 0 && index >= arr->size]: the second operand is evaluated
    only when the first is true. *)
Definition get_item (h : heap StrictArray) (arr : pointer) (index : Z)
  : outcome pointer :=
  out_of_bounds ← (if index <? 0 then a ← deref h arr; Done (size a <=? index)
                   else Done false);
  if (out_of_bounds : bool) then Done NULL
  else
    a ← deref h arr;
    Done (data_at arr (size_t (type_size a * index))).

(** The bytes of the element an element pointer designates. *)
Definition load (h : heap StrictArray) (p : pointer) : outcome (list cell) :=
  match p with
  | Elem l off =>
      a ← deref h (Block l);
      if (off <? 0) || (Z.of_nat (length (data a)) <? off + type_size a) then Fault
      else Done (take (Z.to_nat (type_size a)) (drop (Z.to_nat off) (data a)))
  | _ => Fault
  end.

Definition wf (a : StrictArray) : Prop :=
  0 <= size a <= capacity a /\ 1 <= type_size a /\
  Z.of_nat (length (data a)) = capacity a * type_size a /\
  sizeof_StrictArray + capacity a * type_size a <= SIZE_MAX.

(** The number of bytes requested for [cap] elements of [type_size] bytes. *)
Definition request (type_size cap : Z) : Z :=
  size_t (sizeof_StrictArray + size_t (type_size * cap)).

(** [arr] designates a well-formed container with the given capacity
    and element size. *)
Definition invariant (h : heap StrictArray) (arr : pointer) (cap ts : Z) : Prop :=
  exists a, deref h arr = Done a /\ wf a /\ capacity a = cap /\ type_size a = ts.

(** The operations applied to a container after construction. *)
Inductive op : Type :=
| Append (value : option (list cell))
| RemoveLast
| Clear.

Definition apply_op (h : heap StrictArray) (arr : pointer) (o : op)
  : outcome (heap StrictArray) :=
  match o with
  | Append v => r ← push_back_StrictArray h arr v; Done r.1
  | RemoveLast => pop_back_StrictArray h arr
  | Clear => clear_StrictArray h arr
  end.

(** The heaps observed after each operation of a sequence, in order. *)
Fixpoint run (h : heap StrictArray) (arr : pointer) (ops : list op)
  : outcome (list (heap StrictArray)) :=
  match ops with
  | [] => Done []
  | o :: ops' =>
      h' ← apply_op h arr o;
      tr ← run h' arr ops';
      Done (h' :: tr)
  end.

(** [push_back] called once per value, with the status of every call. *)
Fixpoint append_all (h : heap StrictArray) (arr : pointer)
    (values : list (option (list cell)))
  : outcome (heap StrictArray * list status_t) :=
  match values with
  | [] => Done (h, [])
  | v :: values' =>
      r ← push_back_StrictArray h arr v;
      rs ← append_all r.1 arr values';
      Done (rs.1, r.2 :: rs.2)
  end.

(** An appended value is readable: the pointer is present and at least
    [type_size] bytes lie behind it. *)
Definition readable (type_size : Z) (o : op) : Prop :=
  match o with
  | Append (Some v) => type_size <= Z.of_nat (length v)
  | Append None => False
  | _ => True
  end.

(** The bytes of the block a container occupies. *)
Definition block_size (a : StrictArray) : Z :=
  sizeof_StrictArray + Z.of_nat (length (data a)).

(** [void free_StrictArray(StrictArray **arr)]. *)
Definition free_StrictArray (h : heap StrictArray) (arr : slot)
  : outcome (heap StrictArray * slot) :=
  if absent arr then Done (h, arr)
  else
    p ← read arr;
    if is_null p then Done (h, arr)
    else
      h' ← free block_size h p;
      arr' ← write_slot arr NULL;
      Done (h', arr').

End generic_StrictArray.

(** ** Scenarios *)

(** A heap without allocations: [room] bytes can be handed out, and
    memory that was never written reads as [junk]. *)
Definition empty_heap {T} (room junk : Z) : heap T := mkHeap ∅ room junk [].

(** An int strict array [{7, 8}] of capacity 2 loses its last element
    and is cloned; the result is the clone as it lies in memory. *)
Definition int_clone_after_pop : outcome int_StrictArray.StrictArray_int :=
  c ← int_StrictArray.new_StrictArray_int (empty_heap 4096 0)
        (Some [Some 7; Some 8]) 2 2;
  h ← int_StrictArray.pop_back_StrictArray_int c.1 (data c.2);
  c' ← int_StrictArray.from_StrictArray_int h (data c.2);
  deref c'.1 (data c'.2).

(** A generic strict array of two 2-byte elements, the first one
    initialised, is cloned on a heap whose unwritten memory reads 85. *)
Definition generic_clone : outcome generic_StrictArray.StrictArray :=
  c ← generic_StrictArray.new_StrictArray (empty_heap 4096 85)
        (Some [Some x01; Some x02]) 2 1 2;
  c' ← generic_StrictArray.from_StrictArray c.1 (data c.2);
  deref c'.1 (data c'.2).

(** A generic strict array holding two of at most three 2-byte
    elements, and the pointers [get_item] returns at the given indices. *)
Definition generic_get_items (indices : list Z) : outcome (list pointer) :=
  c ← generic_StrictArray.new_StrictArray (empty_heap 4096 0)
        (Some [Some x01; Some x02; Some x03; Some x04]) 2 2 3;
  mapM (generic_StrictArray.get_item c.1 (data c.2)) indices.

(** ** What a factory hands back *)

(** A [Result] [r] returned on heap [h'] by a factory called on heap
    [h]: a success carries the address of a block that is live now and
    was not before; a failure carries a message and the heap is as it
    was. *)
Definition tagged {T} (h h' : heap T) (r : Result) : Prop :=
  match ok r with
  | NO_ERROR =>
      exists l, word r = Block l /\ blocks h !! l = None
                /\ is_Some (blocks h' !! l)
                /\ forall l', l' <> l -> blocks h' !! l' = blocks h !! l'
  | _ => h' = h /\ exists m, word r = Lit m
  end.

(** * Properties *)

(** ** Outcomes, machine integers, the heap, [memcpy] *)

Lemma bind_Done {A B} (f : A -> outcome B) (m : outcome A) (b : B) :
  m ≫= f = Done b -> exists a, m = Done a /\ f a = Done b.
Proof. destruct m as [a|]; simpl; [eauto | discriminate]. Qed.

Lemma size_t_small z : is_size_t z -> size_t z = z.
Proof. unfold is_size_t, size_t, SIZE_MAX. intros H. apply Z.mod_small. lia. Qed.

(** Linear arithmetic with the machine constants unfolded. *)
Ltac machine_lia :=
  unfold is_size_t, SIZE_MAX, INT_MAX, sizeof_int in *; simpl in *; lia.

Section heap_facts.
Context {T : Type}.
Implicit Types (h : heap T) (p : pointer) (l : loc) (v w : T).

Lemma malloc_fresh h n l : malloc h n = Some l -> blocks h !! l = None.
Proof.
  unfold malloc. destruct (n <=? room h); [|discriminate].
  intros [= <-]. apply not_elem_of_dom, is_fresh.
Qed.

Lemma malloc_room h n : n <= room h -> malloc h n = Some (fresh (dom (blocks h))).
Proof. unfold malloc. intros H. apply Z.leb_le in H. by rewrite H. Qed.

Lemma malloc_no_room h n : room h < n -> malloc h n = None.
Proof. unfold malloc. intros H. apply Z.leb_gt in H. by rewrite H. Qed.

Lemma fresh_block_free h : blocks h !! fresh (dom (blocks h)) = None.
Proof. apply not_elem_of_dom, is_fresh. Qed.

Lemma deref_Done h p v :
  deref h p = Done v <-> exists l, p = Block l /\ blocks h !! l = Some v.
Proof.
  split.
  - destruct p as [| |l|]; simpl; try discriminate.
    destruct (blocks h !! l) eqn:E; [|discriminate].
    intros [= ->]. eauto.
  - intros (l & -> & E). simpl. by rewrite E.
Qed.

Lemma deref_Block h l v : blocks h !! l = Some v -> deref h (Block l) = Done v.
Proof. intros E. simpl. by rewrite E. Qed.

Lemma deref_NULL h : deref h NULL = Fault.
Proof. reflexivity. Qed.

Lemma store_Block h l v w :
  blocks h !! l = Some v ->
  store h (Block l) w
  = Done (mkHeap (<[l := w]> (blocks h)) (room h) (junk h) (stdout h)).
Proof. intros E. simpl. by rewrite E. Qed.

Lemma lookup_allocated h l n v : blocks (allocated h l n v) !! l = Some v.
Proof. simpl. apply lookup_insert_eq. Qed.

Lemma lookup_allocated_old h n v l' w :
  blocks h !! l' = Some w ->
  blocks (allocated h (fresh (dom (blocks h))) n v) !! l' = Some w
  /\ fresh (dom (blocks h)) <> l'.
Proof.
  intros E. assert (Hne : fresh (dom (blocks h)) <> l').
  { intros Heq. rewrite <- Heq, fresh_block_free in E. discriminate. }
  split; [|done]. simpl. by rewrite lookup_insert_ne.
Qed.

End heap_facts.

Lemma memcpy_prefix {A} (dst s : list A) (n : Z) :
  0 <= n <= Z.of_nat (length s) -> n <= Z.of_nat (length dst) ->
  memcpy dst 0 (Some s) n = Done (take (Z.to_nat n) s ++ drop (Z.to_nat n) dst).
Proof.
  intros Hs Hd. unfold memcpy.
  destruct (n =? 0) eqn:E0.
  - apply Z.eqb_eq in E0. subst n. simpl. by rewrite drop_0.
  - assert (Hb : (n <=? Z.of_nat (length s)) && (0 + n <=? Z.of_nat (length dst)) = true).
    { apply andb_true_iff. split; apply Z.leb_le; lia. }
    rewrite Hb. by rewrite Z.add_0_l.
Qed.

Lemma memcpy_nothing {A} (dst : list A) off src : memcpy dst off src 0 = Done dst.
Proof. reflexivity. Qed.

Lemma memcpy_at {A} (dst s : list A) (off n : Z) :
  0 <= off -> 0 < n <= Z.of_nat (length s) -> off + n <= Z.of_nat (length dst) ->
  memcpy dst off (Some s) n
  = Done (take (Z.to_nat off) dst ++ take (Z.to_nat n) s
            ++ drop (Z.to_nat (off + n)) dst).
Proof.
  intros Hoff Hn Hd. unfold memcpy.
  assert (E0 : (n =? 0) = false) by (apply Z.eqb_neq; lia). rewrite E0.
  assert (Hb : (n <=? Z.of_nat (length s)) && (off + n <=? Z.of_nat (length dst)) = true).
  { apply andb_true_iff. split; apply Z.leb_le; lia. }
  by rewrite Hb.
Qed.

Lemma memcpy_length {A} (dst : list A) off src n d :
  0 <= off -> 0 <= n -> memcpy dst off src n = Done d -> length d = length dst.
Proof.
  intros Hoff Hn. unfold memcpy.
  destruct (n =? 0); [by intros [= <-]|].
  destruct src as [s|]; [|discriminate].
  destruct (_ && _) eqn:E; [|discriminate].
  apply andb_true_iff in E as [E1%Z.leb_le E2%Z.leb_le].
  intros [= <-]. rewrite !length_app, !length_take, length_drop. lia.
Qed.

(** ** int/Array.h *)

Section int_Array_facts.
Import int_Array.
Implicit Types (h : heap Array_int) (a : Array_int).

Lemma int_Array_request_small c :
  0 <= c -> sizeof_Array_int + c * sizeof_int <= SIZE_MAX ->
  request c = sizeof_Array_int + c * sizeof_int.
Proof.
  unfold request, sizeof_Array_int. intros H0 H.
  rewrite (size_t_small (c * sizeof_int)); [|machine_lia].
  rewrite size_t_small; machine_lia.
Qed.

Lemma int_Array_raw_request junk c :
  0 <= c -> sizeof_Array_int + c * sizeof_int <= SIZE_MAX ->
  raw junk (request c) = Done (mkArray_int junk (replicate (Z.to_nat c) None)).
Proof.
  intros H0 H. rewrite int_Array_request_small; [|done..]. unfold raw.
  assert (E : (sizeof_Array_int + c * sizeof_int <? sizeof_Array_int) = false).
  { apply Z.ltb_ge. machine_lia. }
  rewrite E. do 3 f_equal.
  replace (sizeof_Array_int + c * sizeof_int - sizeof_Array_int) with (c * sizeof_int) by lia.
  unfold sizeof_int. by rewrite Z.div_mul.
Qed.

Lemma int_Array_count_small c :
  0 <= c -> sizeof_Array_int + c * sizeof_int <= SIZE_MAX ->
  size_t (c * sizeof_int) / sizeof_int = c.
Proof.
  unfold sizeof_Array_int. intros H0 H.
  rewrite size_t_small; [|machine_lia]. unfold sizeof_int. by rewrite Z.div_mul.
Qed.

(** With an absent source the count argument is ignored. *)
Lemma new_Array_int_absent h size cap :
  new_Array_int h None size cap = new_Array_int h None 0 cap.
Proof. reflexivity. Qed.

Lemma new_Array_int_absent_success h size cap :
  0 <= cap -> sizeof_Array_int + cap * sizeof_int <= SIZE_MAX ->
  request cap <= room h ->
  new_Array_int h None size cap =
    Done (allocated h (fresh (dom (blocks h))) (request cap)
            (mkArray_int cap (replicate (Z.to_nat cap) None)),
          mkResult NO_ERROR (Block (fresh (dom (blocks h))))).
Proof.
  intros H0 Hfit Hroom. unfold new_Array_int. simpl absent. cbv iota.
  assert (E : (cap <? 0) = false) by (apply Z.ltb_ge; lia). rewrite E.
  fold (request cap). rewrite (malloc_room h _ Hroom).
  rewrite int_Array_raw_request; [|lia..]. reflexivity.
Qed.

(** Construction from a present source array, on the success path. *)
Lemma new_Array_int_success h src size cap :
  0 <= size <= cap -> size <= Z.of_nat (length src) ->
  sizeof_Array_int + cap * sizeof_int <= SIZE_MAX ->
  request cap <= room h ->
  new_Array_int h (Some src) size cap =
    Done (allocated h (fresh (dom (blocks h))) (request cap)
            (mkArray_int cap (take (Z.to_nat size) src
                                ++ replicate (Z.to_nat (cap - size)) None)),
          mkResult NO_ERROR (Block (fresh (dom (blocks h))))).
Proof.
  intros Hsz Hsrc Hfit Hroom. unfold new_Array_int. simpl absent. cbv iota.
  assert (E : (cap <? size) = false) by (apply Z.ltb_ge; lia). rewrite E.
  fold (request cap). rewrite (malloc_room h _ Hroom).
  rewrite int_Array_raw_request; [|lia..]. simpl.
  rewrite int_Array_count_small; [|machine_lia..].
  rewrite memcpy_prefix; [|rewrite ?length_replicate; lia..]. simpl.
  rewrite drop_replicate.
  by replace (Z.to_nat cap - Z.to_nat size)%nat with (Z.to_nat (cap - size)) by lia.
Qed.

(** Whatever the source and the count, a construction that reports
    success has produced a container that satisfies the representation
    invariant. *)
Lemma new_Array_int_wf h src size cap h' p :
  0 <= cap -> sizeof_Array_int + cap * sizeof_int <= SIZE_MAX ->
  new_Array_int h src size cap = Done (h', mkResult NO_ERROR p) ->
  exists l a, p = Block l /\ blocks h' !! l = Some a /\ wf a /\ capacity a = cap.
Proof.
  intros H0 Hfit. unfold new_Array_int.
  set (sz := if absent src then 0 else size).
  destruct (cap <? sz); [discriminate|].
  fold (request cap). destruct (malloc h (request cap)) as [l|]; [|discriminate].
  rewrite int_Array_raw_request; [|lia..]. simpl.
  intros (d & Hd & H)%bind_Done. injection H as <- <-.
  apply memcpy_length in Hd; [|done|].
  2:{ apply Z.div_pos; [|machine_lia]. unfold size_t. apply Z.mod_pos_bound. machine_lia. }
  rewrite length_replicate in Hd.
  exists l, (mkArray_int cap d). split; [done|].
  split; [simpl; apply lookup_insert_eq|].
  split; [|done]. unfold wf. simpl. lia.
Qed.

(** Cloning copies the whole payload: the clone is the source object. *)
Lemma from_Array_int_success h l a :
  blocks h !! l = Some a -> wf a -> request (capacity a) <= room h ->
  from_Array_int h (Block l) =
    Done (allocated h (fresh (dom (blocks h))) (request (capacity a)) a,
          mkResult NO_ERROR (Block (fresh (dom (blocks h))))).
Proof.
  intros Hl (H0 & Hlen & Hfit) Hroom. unfold from_Array_int. simpl.
  rewrite Hl. simpl.
  rewrite new_Array_int_success; [|lia..].
  rewrite Z.sub_diag. simpl. rewrite app_nil_r, take_ge; [|lia].
  by destruct a.
Qed.

Lemma get_item_Array_int_NULL h index : get_item_Array_int h NULL index = Done NULL.
Proof. reflexivity. Qed.

Lemma get_item_Array_int_in h l a index :
  blocks h !! l = Some a -> 0 <= index < capacity a ->
  get_item_Array_int h (Block l) index = Done (Elem l index).
Proof.
  intros Hl Hi. unfold get_item_Array_int. simpl. rewrite Hl. simpl.
  assert (E : (index <? 0) || (capacity a <=? index) = false).
  { apply orb_false_iff. split; [apply Z.ltb_ge | apply Z.leb_gt]; lia. }
  by rewrite E.
Qed.

Lemma get_item_Array_int_out h l a index :
  blocks h !! l = Some a -> capacity a <= index ->
  get_item_Array_int h (Block l) index = Done NULL.
Proof.
  intros Hl Hi. unfold get_item_Array_int. simpl. rewrite Hl. simpl.
  apply Z.leb_le in Hi. rewrite Hi. by rewrite orb_true_r.
Qed.

(** Reading through the pointer [get_item_Array_int] returns yields the
    cell stored at that index. *)
Lemma int_Array_read h l a index :
  blocks h !! l = Some a -> wf a -> 0 <= index < capacity a ->
  exists c, data a !! Z.to_nat index = Some c /\
    (get_item_Array_int h (Block l) index ≫= load h) = Done c.
Proof.
  intros Hl (H0 & Hlen & _) Hi.
  destruct (lookup_lt_is_Some_2 (data a) (Z.to_nat index)) as [c Hc]; [lia|].
  exists c. split; [done|].
  rewrite (get_item_Array_int_in h l a); [|done..]. simpl. rewrite Hl. simpl.
  assert (E : (index <? 0) = false) by (apply Z.ltb_ge; lia).
  by rewrite E, Hc.
Qed.

End int_Array_facts.

(** ** generic/Array.h *)

Section generic_Array_facts.
Import generic_Array.
Implicit Types (h : heap Array) (a : Array).

Lemma generic_Array_request_small c ts :
  0 <= c * ts -> sizeof_Array + c * ts <= SIZE_MAX ->
  request c ts = sizeof_Array + c * ts.
Proof.
  unfold request, sizeof_Array. intros H0 H.
  rewrite (size_t_small (c * ts)); [|machine_lia].
  rewrite size_t_small; machine_lia.
Qed.

Lemma generic_Array_raw_request junk c ts :
  0 <= c * ts -> sizeof_Array + c * ts <= SIZE_MAX ->
  raw junk (request c ts)
  = Done (mkArray junk junk (replicate (Z.to_nat (c * ts)) None)).
Proof.
  intros H0 H. rewrite generic_Array_request_small; [|done..]. unfold raw.
  assert (E : (sizeof_Array + c * ts <? sizeof_Array) = false).
  { apply Z.ltb_ge. lia. }
  rewrite E. do 4 f_equal. lia.
Qed.

Lemma new_Array_absent h size cap ts :
  new_Array h None size cap ts = new_Array h None 0 cap ts.
Proof. reflexivity. Qed.

(** Construction from a present source array, on the success path. *)
Lemma new_Array_success h src size cap ts :
  0 <= size <= cap -> 1 <= ts -> size * ts <= Z.of_nat (length src) ->
  sizeof_Array + cap * ts <= SIZE_MAX ->
  request cap ts <= room h ->
  new_Array h (Some src) size cap ts =
    Done (allocated h (fresh (dom (blocks h))) (request cap ts)
            (mkArray cap ts (take (Z.to_nat (size * ts)) src
                               ++ replicate (Z.to_nat (cap * ts - size * ts)) None)),
          mkResult NO_ERROR (Block (fresh (dom (blocks h))))).
Proof.
  intros Hsz Hts Hsrc Hfit Hroom. unfold new_Array. simpl absent. cbv iota.
  assert (E : (cap <? size) = false) by (apply Z.ltb_ge; lia). rewrite E.
  assert (E' : (ts <=? 0) = false) by (apply Z.leb_gt; lia). rewrite E'.
  assert (Hle : 0 <= size * ts <= cap * ts) by nia.
  fold (request cap ts). rewrite (malloc_room h _ Hroom).
  rewrite generic_Array_raw_request; [|lia..]. simpl.
  rewrite (size_t_small (size * ts)); [|unfold sizeof_Array in *; machine_lia].
  rewrite memcpy_prefix; [|rewrite ?length_replicate; lia..]. simpl.
  rewrite drop_replicate.
  by replace (Z.to_nat (cap * ts) - Z.to_nat (size * ts))%nat
    with (Z.to_nat (cap * ts - size * ts)) by lia.
Qed.

(** Whatever the source and the count, a construction that reports
    success has produced a container that satisfies the representation
    invariant. *)
Lemma new_Array_wf h src size cap ts h' p :
  0 <= cap -> sizeof_Array + cap * ts <= SIZE_MAX ->
  new_Array h src size cap ts = Done (h', mkResult NO_ERROR p) ->
  exists l a, p = Block l /\ blocks h' !! l = Some a /\ wf a
    /\ capacity a = cap /\ type_size a = ts.
Proof.
  intros H0 Hfit. unfold new_Array.
  set (sz := if absent src then 0 else size).
  destruct (cap <? sz); [discriminate|].
  destruct (ts <=? 0) eqn:E'; [discriminate|]. apply Z.leb_gt in E'.
  assert (Hle : 0 <= cap * ts) by nia.
  fold (request cap ts). destruct (malloc h (request cap ts)) as [l|]; [|discriminate].
  rewrite generic_Array_raw_request; [|lia..]. simpl.
  intros (d & Hd & H)%bind_Done. injection H as <- <-.
  apply memcpy_length in Hd; [|done|].
  2:{ unfold size_t. apply Z.mod_pos_bound. machine_lia. }
  rewrite length_replicate in Hd.
  exists l, (mkArray cap ts d). split; [done|].
  split; [simpl; apply lookup_insert_eq|].
  split; [|done]. unfold wf. simpl. lia.
Qed.

(** Cloning copies the whole payload: the clone is the source object. *)
Lemma from_Array_success h l a :
  blocks h !! l = Some a -> wf a ->
  request (capacity a) (type_size a) <= room h ->
  from_Array h (Block l) =
    Done (allocated h (fresh (dom (blocks h)))
            (request (capacity a) (type_size a)) a,
          mkResult NO_ERROR (Block (fresh (dom (blocks h))))).
Proof.
  intros Hl (H0 & Hts & Hlen & Hfit) Hroom. unfold from_Array. simpl.
  rewrite Hl. simpl.
  rewrite new_Array_success; [|lia..].
  rewrite Z.sub_diag. simpl. rewrite app_nil_r, take_ge; [|lia].
  by destruct a.
Qed.

Lemma get_item_Array_NULL h index : get_item_Array h NULL index = Done NULL.
Proof. reflexivity. Qed.

Lemma get_item_Array_in h l a index :
  blocks h !! l = Some a -> 0 <= index < capacity a ->
  get_item_Array h (Block l) index
  = Done (Elem l (size_t (index * type_size a))).
Proof.
  intros Hl Hi. unfold get_item_Array. simpl. rewrite Hl. simpl.
  assert (E : (index <? 0) || (capacity a <=? index) = false).
  { apply orb_false_iff. split; [apply Z.ltb_ge | apply Z.leb_gt]; lia. }
  by rewrite E.
Qed.

Lemma get_item_Array_out h l a index :
  blocks h !! l = Some a -> capacity a <= index ->
  get_item_Array h (Block l) index = Done NULL.
Proof.
  intros Hl Hi. unfold get_item_Array. simpl. rewrite Hl. simpl.
  apply Z.leb_le in Hi. rewrite Hi. by rewrite orb_true_r.
Qed.

(** Reading through the pointer [get_item_Array] returns yields the
    [type_size] bytes stored at byte offset [index * type_size]. *)
Lemma generic_Array_read h l a index :
  blocks h !! l = Some a -> wf a -> 0 <= index < capacity a ->
  (get_item_Array h (Block l) index ≫= load h)
  = Done (take (Z.to_nat (type_size a))
            (drop (Z.to_nat (index * type_size a)) (data a))).
Proof.
  intros Hl (H0 & Hts & Hlen & Hfit) Hi.
  rewrite (get_item_Array_in h l a); [|done..]. simpl. rewrite Hl. simpl.
  assert (Hle : 0 <= index * type_size a
                /\ index * type_size a + type_size a <= capacity a * type_size a) by nia.
  rewrite size_t_small; [|unfold sizeof_Array in *; machine_lia].
  assert (E : (index * type_size a <? 0)
              || (Z.of_nat (length (data a)) <? index * type_size a + type_size a) = false).
  { apply orb_false_iff. split; [apply Z.ltb_ge | apply Z.ltb_ge]; lia. }
  by rewrite E.
Qed.

End generic_Array_facts.

(** ** int/StrictArray.h *)

Section int_StrictArray_facts.
Import int_StrictArray.
Implicit Types (h : heap StrictArray_int) (a : StrictArray_int).

Lemma int_StrictArray_request_small c :
  0 <= c -> sizeof_StrictArray_int + c * sizeof_int <= SIZE_MAX ->
  request c = sizeof_StrictArray_int + c * sizeof_int.
Proof.
  unfold request, sizeof_StrictArray_int. intros H0 H.
  rewrite (size_t_small (sizeof_int * c)); [|machine_lia].
  rewrite size_t_small; machine_lia.
Qed.

Lemma int_StrictArray_raw_request junk c :
  0 <= c -> sizeof_StrictArray_int + c * sizeof_int <= SIZE_MAX ->
  raw junk (request c)
  = Done (mkStrictArray_int junk junk (replicate (Z.to_nat c) None)).
Proof.
  intros H0 H. rewrite int_StrictArray_request_small; [|done..]. unfold raw.
  assert (E : (sizeof_StrictArray_int + c * sizeof_int <? sizeof_StrictArray_int) = false).
  { apply Z.ltb_ge. machine_lia. }
  rewrite E. do 3 f_equal.
  replace (sizeof_StrictArray_int + c * sizeof_int - sizeof_StrictArray_int)
    with (c * sizeof_int) by lia.
  unfold sizeof_int. by rewrite Z.div_mul.
Qed.

Lemma int_StrictArray_count_small c :
  0 <= c -> sizeof_StrictArray_int + c * sizeof_int <= SIZE_MAX ->
  size_t (c * sizeof_int) / sizeof_int = c.
Proof.
  unfold sizeof_StrictArray_int. intros H0 H.
  rewrite size_t_small; [|machine_lia]. unfold sizeof_int. by rewrite Z.div_mul.
Qed.

Lemma request_comm c :
  size_t (sizeof_StrictArray_int + size_t (c * sizeof_int)) = request c.
Proof. unfold request. by rewrite (Z.mul_comm c). Qed.

(** The print loop reads the elements it visits, in order. *)
Lemma print_loop_seq (d : list cell) (k n : nat) :
  (k + n <= length d)%nat ->
  print_loop d (seq k n) = Done (take n (drop k d)).
Proof.
  revert k. induction n as [|n IH]; intros k Hk; simpl.
  - by rewrite take_0.
  - destruct (lookup_lt_is_Some_2 d k) as [c Hc]; [lia|].
    rewrite Hc, IH; [|lia]. simpl.
    rewrite (drop_S d c k Hc). reflexivity.
Qed.

Lemma print_elements_present src size :
  0 <= size <= INT_MAX -> size <= Z.of_nat (length src) ->
  print_elements (Some src) size = Done (take (Z.to_nat size) src).
Proof.
  intros Hs Hl. unfold print_elements.
  assert (E : (INT_MAX <? size) = false) by (apply Z.ltb_ge; lia). rewrite E.
  simpl. rewrite print_loop_seq; [|lia]. by rewrite drop_0.
Qed.

Lemma new_StrictArray_int_absent h size cap :
  new_StrictArray_int h None size cap = new_StrictArray_int h None 0 cap.
Proof. reflexivity. Qed.

(** Construction from a present source array, on the success path. *)
Lemma new_StrictArray_int_success h src size cap :
  0 <= size <= cap -> size <= Z.of_nat (length src) -> size <= INT_MAX ->
  sizeof_StrictArray_int + cap * sizeof_int <= SIZE_MAX ->
  request cap <= room h ->
  new_StrictArray_int h (Some src) size cap =
    Done (print (allocated h (fresh (dom (blocks h))) (request cap)
                   (mkStrictArray_int size cap
                      (take (Z.to_nat size) src
                         ++ replicate (Z.to_nat (cap - size)) None)))
                (take (Z.to_nat size) src),
          mkResult NO_ERROR (Block (fresh (dom (blocks h))))).
Proof.
  intros Hsz Hsrc Hint Hfit Hroom. unfold new_StrictArray_int. simpl absent. cbv iota.
  assert (E : (size <? 0) || (cap <? size) = false).
  { apply orb_false_iff. split; apply Z.ltb_ge; lia. }
  rewrite E. fold (request cap). rewrite (malloc_room h _ Hroom).
  rewrite int_StrictArray_raw_request; [|lia..]. simpl.
  rewrite int_StrictArray_count_small; [|machine_lia..].
  rewrite memcpy_prefix; [|rewrite ?length_replicate; lia..]. simpl.
  rewrite print_elements_present; [|lia..]. simpl.
  rewrite drop_replicate.
  by replace (Z.to_nat cap - Z.to_nat size)%nat with (Z.to_nat (cap - size)) by lia.
Qed.


(** Cloning copies [capacity] elements, the stale ones behind [size]
    included: the clone is the source object. *)
Lemma from_StrictArray_int_success h l a :
  blocks h !! l = Some a -> wf a -> request (capacity a) <= room h ->
  from_StrictArray_int h (Block l) =
    Done (allocated h (fresh (dom (blocks h))) (request (capacity a)) a,
          mkResult NO_ERROR (Block (fresh (dom (blocks h))))).
Proof.
  intros Hl (H0 & Hlen & Hfit) Hroom. unfold from_StrictArray_int. simpl.
  rewrite Hl. simpl. rewrite request_comm, (malloc_room h _ Hroom).
  rewrite int_StrictArray_raw_request; [|lia..]. simpl.
  rewrite int_StrictArray_count_small; [|lia..].
  rewrite memcpy_prefix; [|rewrite ?length_replicate; lia..]. simpl.
  rewrite take_ge, drop_ge, app_nil_r; [|rewrite ?length_replicate; lia..].
  by destruct a.
Qed.

Lemma push_back_StrictArray_int_NULL h v :
  push_back_StrictArray_int h NULL v = Done (h, SEGFAULT).
Proof. reflexivity. Qed.

Lemma push_back_StrictArray_int_full h l a v :
  blocks h !! l = Some a -> size a = capacity a ->
  push_back_StrictArray_int h (Block l) v = Done (h, NO_SPACE).
Proof.
  intros Hl Hfull. unfold push_back_StrictArray_int. simpl. rewrite Hl. simpl.
  apply Z.eqb_eq in Hfull. by rewrite Hfull.
Qed.

Lemma push_back_StrictArray_int_room h l a v :
  blocks h !! l = Some a -> wf a -> size a < capacity a ->
  push_back_StrictArray_int h (Block l) v =
    Done (mkHeap (<[l := mkStrictArray_int (size a + 1) (capacity a)
                           (<[Z.to_nat (size a) := Some v]> (data a))]> (blocks h))
                 (room h) (junk h) (stdout h),
          NO_ERROR).
Proof.
  intros Hl (H0 & Hlen & Hfit) Hroom. unfold push_back_StrictArray_int. simpl.
  rewrite Hl. simpl.
  assert (E : (size a =? capacity a) = false) by (apply Z.eqb_neq; lia). rewrite E.
  assert (E' : (Z.of_nat (length (data a)) <=? size a) = false) by (apply Z.leb_gt; lia).
  rewrite E'. rewrite size_t_small; [done|].
  unfold sizeof_StrictArray_int in *. machine_lia.
Qed.

Lemma pop_back_StrictArray_int_empty h l a :
  blocks h !! l = Some a -> size a = 0 ->
  pop_back_StrictArray_int h (Block l) = Done h.
Proof.
  intros Hl Hs. unfold pop_back_StrictArray_int. simpl. rewrite Hl. simpl.
  by rewrite Hs.
Qed.

Lemma pop_back_StrictArray_int_some h l a :
  blocks h !! l = Some a -> wf a -> 0 < size a ->
  pop_back_StrictArray_int h (Block l) =
    Done (mkHeap (<[l := mkStrictArray_int (size a - 1) (capacity a) (data a)]> (blocks h))
                 (room h) (junk h) (stdout h)).
Proof.
  intros Hl (H0 & Hlen & Hfit) Hs. unfold pop_back_StrictArray_int. simpl.
  rewrite Hl. simpl.
  assert (E : (size a =? 0) = false) by (apply Z.eqb_neq; lia). rewrite E.
  rewrite size_t_small; [done|].
  unfold sizeof_StrictArray_int in *. machine_lia.
Qed.

Lemma clear_StrictArray_int_spec h l a :
  blocks h !! l = Some a ->
  clear_StrictArray_int h (Block l) =
    Done (mkHeap (<[l := mkStrictArray_int 0 (capacity a) (data a)]> (blocks h))
                 (room h) (junk h) (stdout h)).
Proof.
  intros Hl. unfold clear_StrictArray_int. simpl. by rewrite Hl.
Qed.

Lemma get_item_StrictArray_int_out h l a index :
  blocks h !! l = Some a -> size a <= index ->
  get_item_StrictArray_int h (Block l) index = Done NULL.
Proof.
  intros Hl Hi. unfold get_item_StrictArray_int.
  destruct (index <? 0); [done|]. simpl. rewrite Hl. simpl.
  apply Z.leb_le in Hi. by rewrite Hi.
Qed.

Lemma get_item_StrictArray_int_in h l a index :
  blocks h !! l = Some a -> 0 <= index < size a ->
  get_item_StrictArray_int h (Block l) index = Done (Elem l index).
Proof.
  intros Hl Hi. unfold get_item_StrictArray_int.
  assert (E : (index <? 0) = false) by (apply Z.ltb_ge; lia). rewrite E.
  simpl. rewrite Hl. simpl.
  assert (E' : (size a <=? index) = false) by (apply Z.leb_gt; lia).
  by rewrite E'.
Qed.

(** Reading through the pointer [get_item_StrictArray_int] returns
    yields the cell stored at that index. *)
Lemma int_StrictArray_read h l a index :
  blocks h !! l = Some a -> wf a -> 0 <= index < size a ->
  exists c, data a !! Z.to_nat index = Some c /\
    (get_item_StrictArray_int h (Block l) index ≫= load h) = Done c.
Proof.
  intros Hl (H0 & Hlen & _) Hi.
  destruct (lookup_lt_is_Some_2 (data a) (Z.to_nat index)) as [c Hc]; [lia|].
  exists c. split; [done|].
  rewrite (get_item_StrictArray_int_in h l a); [|done..]. simpl. rewrite Hl. simpl.
  assert (E : (index <? 0) = false) by (apply Z.ltb_ge; lia).
  by rewrite E, Hc.
Qed.

End int_StrictArray_facts.

(** *** Sequences of operations on an int strict array *)

Section int_StrictArray_sequences.
Import int_StrictArray.
Implicit Types (h : heap StrictArray_int) (a : StrictArray_int).

Lemma int_invariant_Block h p cap :
  invariant h p cap ->
  exists l a, p = Block l /\ blocks h !! l = Some a /\ wf a /\ capacity a = cap.
Proof.
  intros (a & (l & -> & Hl)%deref_Done & Hwf & Hc). by exists l, a.
Qed.

Lemma int_invariant_updated h l a' cap :
  wf a' -> capacity a' = cap ->
  invariant (mkHeap (<[l := a']> (blocks h)) (room h) (junk h) (stdout h))
    (Block l) cap.
Proof.
  intros Hwf Hc. exists a'. split; [|done].
  simpl. by rewrite lookup_insert_eq.
Qed.

(** Every operation runs to completion on a well-formed container and
    leaves it well-formed with the same capacity. *)
Lemma int_apply_op_invariant h p cap o :
  invariant h p cap ->
  exists h', apply_op h p o = Done h' /\ invariant h' p cap.
Proof.
  intros Hinv.
  destruct (int_invariant_Block _ _ _ Hinv) as (l & a & -> & Hl & Hwf & Hc).
  pose proof Hwf as (H0 & Hlen & Hfit).
  destruct o as [v| |]; simpl apply_op.
  - destruct (decide (size a = capacity a)) as [Hfull|Hroom].
    + rewrite (push_back_StrictArray_int_full h l a); [|done..]. eauto.
    + rewrite (push_back_StrictArray_int_room h l a); [|done|done|lia].
      eexists. split; [reflexivity|].
      apply int_invariant_updated; [|done].
      unfold wf. simpl. rewrite length_insert. lia.
  - destruct (decide (size a = 0)) as [Hempty|Hsome].
    + rewrite (pop_back_StrictArray_int_empty h l a); [|done..]. eauto.
    + rewrite (pop_back_StrictArray_int_some h l a); [|done|done|lia].
      eexists. split; [reflexivity|].
      apply int_invariant_updated; [|done]. unfold wf. simpl. lia.
  - rewrite (clear_StrictArray_int_spec h l a); [|done].
    eexists. split; [reflexivity|].
    apply int_invariant_updated; [|done]. unfold wf. simpl. lia.
Qed.

Lemma int_run_invariant ops : forall h p cap,
  invariant h p cap ->
  exists tr, run h p ops = Done tr /\ Forall (fun h' => invariant h' p cap) tr.
Proof.
  induction ops as [|o ops IH]; intros h p cap Hinv; simpl.
  - exists []. by split.
  - destruct (int_apply_op_invariant h p cap o Hinv) as (h' & Happ & Hinv').
    destruct (IH h' p cap Hinv') as (tr & Hrun & Htr).
    rewrite Happ. simpl. rewrite Hrun. simpl.
    exists (h' :: tr). split; [done|]. by constructor.
Qed.

(** Appending as many values as there are free slots succeeds every
    time and fills the container, after which every append is refused. *)
Lemma int_append_all_fill values : forall h l a,
  blocks h !! l = Some a -> wf a ->
  size a + Z.of_nat (length values) = capacity a ->
  exists h' a',
    append_all h (Block l) values = Done (h', replicate (length values) NO_ERROR)
    /\ blocks h' !! l = Some a' /\ wf a'
    /\ size a' = capacity a /\ capacity a' = capacity a
    /\ forall v, push_back_StrictArray_int h' (Block l) v = Done (h', NO_SPACE).
Proof.
  induction values as [|v values IH]; intros h l a Hl Hwf Hlen; simpl in *.
  - exists h, a. split; [done|]. split; [done|]. split; [done|].
    split; [lia|]. split; [done|].
    intros v. apply (push_back_StrictArray_int_full h l a); [done|lia].
  - pose proof Hwf as (H0 & Hdata & Hfit).
    rewrite (push_back_StrictArray_int_room h l a); [|done|done|lia]. simpl.
    set (a1 := mkStrictArray_int (size a + 1) (capacity a)
                 (<[Z.to_nat (size a) := Some v]> (data a))).
    set (h1 := mkHeap (<[l := a1]> (blocks h)) (room h) (junk h) (stdout h)).
    destruct (IH h1 l a1) as (h' & a' & Happ & Hl' & Hwf' & Hs' & Hc' & Hfull).
    + simpl. apply lookup_insert_eq.
    + unfold wf, a1. simpl. rewrite length_insert. lia.
    + unfold a1. simpl. lia.
    + rewrite Happ. simpl. by exists h', a'.
Qed.

End int_StrictArray_sequences.

(** ** generic/StrictArray.h *)

Section generic_StrictArray_facts.
Import generic_StrictArray.
Implicit Types (h : heap StrictArray) (a : StrictArray).

Lemma generic_StrictArray_request_small ts c :
  0 <= ts * c -> sizeof_StrictArray + ts * c <= SIZE_MAX ->
  request ts c = sizeof_StrictArray + ts * c.
Proof.
  unfold request, sizeof_StrictArray. intros H0 H.
  rewrite (size_t_small (ts * c)); [|machine_lia].
  rewrite size_t_small; machine_lia.
Qed.

Lemma generic_StrictArray_raw_request junk ts c :
  0 <= ts * c -> sizeof_StrictArray + ts * c <= SIZE_MAX ->
  raw junk (request ts c)
  = Done (mkStrictArray junk junk junk (replicate (Z.to_nat (ts * c)) None)).
Proof.
  intros H0 H. rewrite generic_StrictArray_request_small; [|done..]. unfold raw.
  assert (E : (sizeof_StrictArray + ts * c <? sizeof_StrictArray) = false).
  { apply Z.ltb_ge. lia. }
  rewrite E. do 4 f_equal. lia.
Qed.

Lemma new_StrictArray_absent h ts size cap :
  new_StrictArray h None ts size cap = new_StrictArray h None ts 0 cap.
Proof. reflexivity. Qed.

(** Construction from a present source array, on the success path. *)
Lemma new_StrictArray_success h src ts size cap :
  0 <= size <= cap -> 1 <= ts -> size * ts <= Z.of_nat (length src) ->
  sizeof_StrictArray + ts * cap <= SIZE_MAX ->
  request ts cap <= room h ->
  new_StrictArray h (Some src) ts size cap =
    Done (allocated h (fresh (dom (blocks h))) (request ts cap)
            (mkStrictArray size cap ts
               (take (Z.to_nat (size * ts)) src
                  ++ replicate (Z.to_nat (ts * cap - size * ts)) None)),
          mkResult NO_ERROR (Block (fresh (dom (blocks h))))).
Proof.
  intros Hsz Hts Hsrc Hfit Hroom. unfold new_StrictArray. simpl absent. cbv iota.
  assert (E : (size <? 0) || (cap <? size) = false).
  { apply orb_false_iff. split; apply Z.ltb_ge; lia. }
  rewrite E.
  assert (E' : (ts <=? 0) = false) by (apply Z.leb_gt; lia). rewrite E'.
  assert (Hle : 0 <= size * ts <= ts * cap) by nia.
  fold (request ts cap). rewrite (malloc_room h _ Hroom).
  rewrite generic_StrictArray_raw_request; [|lia..]. simpl.
  rewrite (size_t_small (size * ts)); [|unfold sizeof_StrictArray in *; machine_lia].
  rewrite memcpy_prefix; [|rewrite ?length_replicate; lia..]. simpl.
  rewrite drop_replicate.
  by replace (Z.to_nat (ts * cap) - Z.to_nat (size * ts))%nat
    with (Z.to_nat (ts * cap - size * ts)) by lia.
Qed.


(** Cloning copies the [size] live elements; the rest of the payload
    stays indeterminate and [type_size] keeps the allocator's junk. *)
Lemma from_StrictArray_success h l a :
  blocks h !! l = Some a -> wf a ->
  request (type_size a) (capacity a) <= room h ->
  from_StrictArray h (Block l) =
    Done (allocated h (fresh (dom (blocks h))) (request (type_size a) (capacity a))
            (mkStrictArray (size a) (capacity a) (junk h)
               (take (Z.to_nat (size a * type_size a)) (data a)
                  ++ replicate (Z.to_nat (capacity a * type_size a
                                          - size a * type_size a)) None)),
          mkResult NO_ERROR (Block (fresh (dom (blocks h))))).
Proof.
  intros Hl (H0 & Hts & Hlen & Hfit) Hroom. unfold from_StrictArray. simpl.
  rewrite Hl. simpl.
  assert (Hle : 0 <= size a * type_size a <= capacity a * type_size a) by nia.
  rewrite (Z.mul_comm (capacity a)). fold (request (type_size a) (capacity a)).
  rewrite (malloc_room h _ Hroom).
  rewrite generic_StrictArray_raw_request; [|lia..]. simpl.
  rewrite (size_t_small (size a * type_size a));
    [|unfold sizeof_StrictArray in *; machine_lia].
  rewrite memcpy_prefix; [|rewrite ?length_replicate; lia..]. simpl.
  rewrite drop_replicate.
  by replace (Z.to_nat (type_size a * capacity a)
              - Z.to_nat (size a * type_size a))%nat
    with (Z.to_nat (type_size a * capacity a - size a * type_size a)) by lia.
Qed.

(** The handle is dereferenced before it is tested. *)
Lemma push_back_StrictArray_NULL h v : push_back_StrictArray h NULL v = Fault.
Proof. reflexivity. Qed.

Lemma push_back_StrictArray_full h l a v :
  blocks h !! l = Some a -> size a = capacity a ->
  push_back_StrictArray h (Block l) v = Done (h, NO_SPACE).
Proof.
  intros Hl Hfull. unfold push_back_StrictArray. simpl. rewrite Hl. simpl.
  apply Z.eqb_eq in Hfull. by rewrite Hfull.
Qed.

Lemma push_back_StrictArray_room h l a v :
  blocks h !! l = Some a -> wf a -> size a < capacity a ->
  type_size a <= Z.of_nat (length v) ->
  push_back_StrictArray h (Block l) (Some v) =
    Done (mkHeap (<[l := mkStrictArray (size a + 1) (capacity a) (type_size a)
                           (take (Z.to_nat (type_size a * size a)) (data a)
                              ++ take (Z.to_nat (type_size a)) v
                              ++ drop (Z.to_nat (type_size a * size a + type_size a))
                                   (data a))]> (blocks h))
                 (room h) (junk h) (stdout h),
          NO_ERROR).
Proof.
  intros Hl (H0 & Hts & Hlen & Hfit) Hroom Hv. unfold push_back_StrictArray. simpl.
  rewrite Hl. simpl.
  assert (E : (size a =? capacity a) = false) by (apply Z.eqb_neq; lia). rewrite E.
  assert (Hle : 0 <= type_size a * size a
                /\ type_size a * size a + type_size a <= capacity a * type_size a) by nia.
  rewrite (size_t_small (type_size a * size a));
    [|unfold sizeof_StrictArray in *; machine_lia].
  rewrite memcpy_at; [|lia..]. simpl.
  rewrite size_t_small; [done|]. unfold sizeof_StrictArray in *. 
  assert (capacity a <= capacity a * type_size a) by nia. machine_lia.
Qed.

Lemma pop_back_StrictArray_empty h l a :
  blocks h !! l = Some a -> size a = 0 ->
  pop_back_StrictArray h (Block l) = Done h.
Proof.
  intros Hl Hs. unfold pop_back_StrictArray. simpl. rewrite Hl. simpl.
  by rewrite Hs.
Qed.

Lemma pop_back_StrictArray_some h l a :
  blocks h !! l = Some a -> wf a -> 0 < size a ->
  pop_back_StrictArray h (Block l) =
    Done (mkHeap (<[l := mkStrictArray (size a - 1) (capacity a) (type_size a)
                           (data a)]> (blocks h))
                 (room h) (junk h) (stdout h)).
Proof.
  intros Hl (H0 & Hts & Hlen & Hfit) Hs. unfold pop_back_StrictArray. simpl.
  rewrite Hl. simpl.
  assert (E : (size a =? 0) = false) by (apply Z.eqb_neq; lia). rewrite E.
  rewrite size_t_small; [done|]. unfold sizeof_StrictArray in *.
  assert (capacity a <= capacity a * type_size a) by nia. machine_lia.
Qed.

Lemma clear_StrictArray_spec h l a :
  blocks h !! l = Some a ->
  clear_StrictArray h (Block l) =
    Done (mkHeap (<[l := mkStrictArray 0 (capacity a) (type_size a) (data a)]>
                    (blocks h))
                 (room h) (junk h) (stdout h)).
Proof.
  intros Hl. unfold clear_StrictArray. simpl. by rewrite Hl.
Qed.

(** For an index of type [size_t] the bounds test never fires: a
    pointer into the payload comes back whatever the index. *)
Lemma get_item_never_NULL h l a index :
  blocks h !! l = Some a -> 0 <= index ->
  get_item h (Block l) index = Done (Elem l (size_t (type_size a * index))).
Proof.
  intros Hl Hi. unfold get_item.
  assert (E : (index <? 0) = false) by (apply Z.ltb_ge; lia). rewrite E.
  simpl. by rewrite Hl.
Qed.

Lemma get_item_NULL h index : get_item h NULL index = Fault.
Proof. unfold get_item. by destruct (index <? 0). Qed.

End generic_StrictArray_facts.

(** *** Sequences of operations on a generic strict array *)

Section generic_StrictArray_sequences.
Import generic_StrictArray.
Implicit Types (h : heap StrictArray) (a : StrictArray).





Lemma generic_append_all_fill values : forall h l a,
  blocks h !! l = Some a -> wf a ->
  Forall (fun v => readable (type_size a) (Append v)) values ->
  size a + Z.of_nat (length values) = capacity a ->
  exists h' a',
    append_all h (Block l) values = Done (h', replicate (length values) NO_ERROR)
    /\ blocks h' !! l = Some a' /\ wf a'
    /\ size a' = capacity a /\ capacity a' = capacity a
    /\ forall v, push_back_StrictArray h' (Block l) v = Done (h', NO_SPACE).
Proof.
  induction values as [|v values IH]; intros h l a Hl Hwf Hread Hlen; simpl in *.
  - exists h, a. split; [done|]. split; [done|]. split; [done|].
    split; [lia|]. split; [done|].
    intros v. apply (push_back_StrictArray_full h l a); [done|lia].
  - pose proof Hwf as (H0 & Hts & Hdata & Hfit).
    apply Forall_cons in Hread as [Hv Hvs].
    destruct v as [v|]; [|done]. simpl in Hv.
    rewrite (push_back_StrictArray_room h l a); [|done|done|lia|lia]. simpl.
    set (a1 := mkStrictArray (size a + 1) (capacity a) (type_size a) _).
    set (h1 := mkHeap (<[l := a1]> (blocks h)) (room h) (junk h) (stdout h)).
    destruct (IH h1 l a1) as (h' & a' & Happ & Hl' & Hwf' & Hs' & Hc' & Hfull).
    + simpl. apply lookup_insert_eq.
    + assert (Hle : 0 <= type_size a * size a
                    /\ type_size a * size a + type_size a
                       <= capacity a * type_size a) by nia.
      unfold wf, a1. simpl. rewrite !length_app, !length_take, length_drop. lia.
    + done.
    + unfold a1. simpl. lia.
    + rewrite Happ. simpl. by exists h', a'.
Qed.

End generic_StrictArray_sequences.

(** * The claims of the specification *)

(** ** Result unwrapping *)

(** What [get_data_p] does with a present [Result] and a present slot:
    the payload goes to the slot on success, the slot is reset and the
    message returned on failure. *)
Lemma get_data_p_present (r : Result) (p : pointer) :
  get_data_p (Some r) (Some p)
  = Done (if decide (ok r = NO_ERROR) then (Some (data r), NULL)
          else (Some NULL, error_msg r)).
Proof.
  unfold get_data_p. simpl.
  destruct (decide (ok r ≠ NO_ERROR)) as [Hne|Heq]; simpl.
  - by rewrite decide_False.
  - apply dec_stable in Heq. by rewrite decide_True.
Qed.

(** C6 (the code departs from the claim): on a present slot [get_data]
    stores the payload of a successful [Result] but then reaches the end
    of the function without returning a value, and on a failed [Result]
    it returns the message but leaves the slot as it was instead of
    setting it to null. *)
Theorem get_data_present_slot (s : status_t) (w p : pointer) :
  get_data (mkResult s w) (Some p)
  = Done (if decide (s = NO_ERROR) then (Some w, NoValue)
          else (Some p, Return w)).
Proof. by destruct s. Qed.

(** C10: with an absent output slot neither unwrap operation touches the
    slot or faults; [get_data_p] returns the null-access message and
    [get_data] returns the null pointer whatever the status of the
    [Result]. *)
Theorem unwrap_absent_slot (r : Result) :
  get_data_p (Some r) None
  = Done (None, Lit ("ValueError: cannot access a null pointer." ++ nl))
  /\ get_data r None = Done (None, Return NULL).
Proof. split; reflexivity. Qed.

(** ** Indexed access *)

(** The int strict array checks the index against [size]: the null
    pointer from [size] on, the address of the stored element below. *)
Lemma get_item_StrictArray_int_bounds h l a index :
  blocks h !! l = Some a -> int_StrictArray.wf a -> 0 <= index ->
  (int_StrictArray.size a <= index ->
     int_StrictArray.get_item_StrictArray_int h (Block l) index = Done NULL)
  /\ (index < int_StrictArray.size a ->
     exists c, int_StrictArray.data a !! Z.to_nat index = Some c /\
       int_StrictArray.get_item_StrictArray_int h (Block l) index = Done (Elem l index) /\
       int_StrictArray.load h (Elem l index) = Done c).
Proof.
  intros Hl Hwf Hi. split; intros Hb.
  - by apply (get_item_StrictArray_int_out h l a).
  - destruct (int_StrictArray_read h l a index) as (c & Hc & Hread); [done|done|lia|].
    rewrite (get_item_StrictArray_int_in h l a) in Hread; [|done|lia].
    exists c. split; [done|]. split; [|done].
    apply (get_item_StrictArray_int_in h l a); [done|lia].
Qed.

(** C1 (the code departs from the claim): the generic [get_item] joins
    its two bounds tests with [&&], so for an unsigned index the test
    never fires.  On a container with [size = 2] and [capacity = 3] of
    2-byte elements it returns payload addresses at index 2 ([= size]),
    3 ([= capacity]) and 100, where the claim asks for the null pointer. *)
Theorem get_item_generic_past_size :
  generic_get_items [1; 2; 3; 100]
  = Done [Elem 1%positive 2; Elem 1%positive 4; Elem 1%positive 6;
          Elem 1%positive 200].
Proof. vm_compute. reflexivity. Qed.

(** C3 (the code departs from the claim): with an absent handle the two
    plain arrays return the null pointer, but the two strict arrays
    read [arr->size] or [arr->type_size] through the null handle. *)
Theorem get_item_absent_handle (index : Z) :
  0 <= index ->
  (forall h, int_Array.get_item_Array_int h NULL index = Done NULL)
  /\ (forall h, generic_Array.get_item_Array h NULL index = Done NULL)
  /\ (forall h, int_StrictArray.get_item_StrictArray_int h NULL index = Fault)
  /\ (forall h, generic_StrictArray.get_item h NULL index = Fault).
Proof.
  intros Hi. repeat split; intros h; try reflexivity.
  - unfold int_StrictArray.get_item_StrictArray_int.
    assert (E : (index <? 0) = false) by (apply Z.ltb_ge; lia). by rewrite E.
  - apply get_item_NULL.
Qed.

Lemma get_item_absent_handle_witness :
  0 <= 0
  /\ int_StrictArray.get_item_StrictArray_int (empty_heap 0 0) NULL 0 = Fault
  /\ generic_StrictArray.get_item (empty_heap 0 0) NULL 0 = Fault.
Proof.
  split; [lia|].
  destruct (get_item_absent_handle 0) as (_ & _ & Hi & Hg); [lia|].
  split; [apply Hi | apply Hg].
Defined.

(** ** Append *)

(** What the int [push_back] does in each of its three cases. *)
Lemma push_back_StrictArray_int_cases h l a v :
  blocks h !! l = Some a -> int_StrictArray.wf a ->
  int_StrictArray.push_back_StrictArray_int h NULL v = Done (h, SEGFAULT)
  /\ (int_StrictArray.size a = int_StrictArray.capacity a ->
      int_StrictArray.push_back_StrictArray_int h (Block l) v = Done (h, NO_SPACE))
  /\ (int_StrictArray.size a < int_StrictArray.capacity a ->
      exists h', int_StrictArray.push_back_StrictArray_int h (Block l) v
                 = Done (h', NO_ERROR)
        /\ deref h' (Block l)
           = Done (int_StrictArray.mkStrictArray_int
                     (int_StrictArray.size a + 1) (int_StrictArray.capacity a)
                     (<[Z.to_nat (int_StrictArray.size a) := Some v]>
                        (int_StrictArray.data a)))).
Proof.
  intros Hl Hwf. split; [reflexivity|]. split; intros Hs.
  - by apply (push_back_StrictArray_int_full h l a).
  - rewrite (push_back_StrictArray_int_room h l a); [|done..].
    eexists. split; [reflexivity|]. simpl. by rewrite lookup_insert_eq.
Qed.

(** C2 (the code departs from the claim): the generic [push_back] reads
    [arr->size] and [arr->type_size] before it tests [arr], so an absent
    handle is dereferenced instead of being answered with [SEGFAULT];
    the int [push_back] tests first and answers [SEGFAULT] with the
    heap unchanged. *)
Theorem push_back_absent_handle :
  (forall h v, generic_StrictArray.push_back_StrictArray h NULL v = Fault)
  /\ (forall h v, int_StrictArray.push_back_StrictArray_int h NULL v
                  = Done (h, SEGFAULT)).
Proof. split; reflexivity. Qed.

(** ** Cloning a strict array *)

(** C4 (the code departs from the claim): the int clone copies
    [capacity] elements, not [size]: the element 8 behind [size = 1] is
    found in the clone.  The generic clone copies [size] elements but
    never assigns [type_size], which keeps the value the allocator left
    there (85) instead of the source's 2. *)
Theorem clone_strict_array_extent :
  int_clone_after_pop
  = Done (int_StrictArray.mkStrictArray_int 1 2 [Some 7; Some 8])
  /\ generic_clone
     = Done (generic_StrictArray.mkStrictArray 1 2 85
               [Some x01; Some x02; None; None]).
Proof. split; vm_compute; reflexivity. Qed.

(** ** Construction *)

(** The claim C5 as stated fails: with an absent source pointer the
    count 5 is replaced by 0, so a capacity of 3 is accepted and the
    int plain array is built. *)
Lemma construct_absent_source_accepted :
  3 < 5 /\
  exists h' r,
    int_Array.new_Array_int (empty_heap 4096 0) None 5 3 = Done (h', r)
    /\ ok r = NO_ERROR /\ ok r <> INVALID_SIZE.
Proof.
  split; [lia|]. eexists _, _. split; [vm_compute; reflexivity|].
  split; [reflexivity | discriminate].
Qed.

(** C5 (amended): every constructor called with a present source pointer
    and a capacity below the count returns the [INVALID_SIZE] result and
    leaves the heap as it was, so no container is produced. *)
Theorem construct_rejects_small_capacity (size cap : Z) :
  cap < size ->
  (forall h src,
     int_Array.new_Array_int h (Some src) size cap
     = Done (h, mkResult INVALID_SIZE
                  (Lit ("SizeError: size is negative or capacity is less than size" ++ nl))))
  /\ (forall h src ts,
     generic_Array.new_Array h (Some src) size cap ts
     = Done (h, mkResult INVALID_SIZE
                  (Lit ("SizeError: size is negative or capacity is less than size" ++ nl))))
  /\ (forall h src,
     int_StrictArray.new_StrictArray_int h (Some src) size cap
     = Done (h, mkResult INVALID_SIZE
                  (Lit ("SizeError: size is negative or capacity is less than size" ++ nl))))
  /\ (forall h src ts,
     generic_StrictArray.new_StrictArray h (Some src) ts size cap
     = Done (h, mkResult INVALID_SIZE
                  (Lit ("SizeError: Size is negative or capacity is less than size" ++ nl)))).
Proof.
  intros Hlt. apply Z.ltb_lt in Hlt. repeat split; intros.
  - unfold int_Array.new_Array_int. simpl absent. cbv iota. by rewrite Hlt.
  - unfold generic_Array.new_Array. simpl absent. cbv iota. by rewrite Hlt.
  - unfold int_StrictArray.new_StrictArray_int. simpl absent. cbv iota.
    by rewrite Hlt, orb_true_r.
  - unfold generic_StrictArray.new_StrictArray. simpl absent. cbv iota.
    by rewrite Hlt, orb_true_r.
Qed.

Lemma construct_rejects_small_capacity_witness :
  3 < 5 /\
  int_StrictArray.new_StrictArray_int (empty_heap 4096 0)
    (Some [Some 1; Some 2; Some 3; Some 4; Some 5]) 5 3
  = Done (empty_heap 4096 0,
          mkResult INVALID_SIZE
            (Lit ("SizeError: size is negative or capacity is less than size" ++ nl))).
Proof.
  split; [lia|].
  destruct (construct_rejects_small_capacity 5 3) as (_ & _ & H & _); [lia|].
  apply H.
Defined.

(** C9: on a heap that can satisfy the 48-byte request, constructing an
    int plain array from an absent source with count 5 and capacity 10
    succeeds; the container has capacity 10, [get] at index 9 returns a
    non-null element pointer (to an indeterminate [int]) and [get] at
    index 10 the null pointer. *)
Theorem construct_absent_5_10 (h : heap int_Array.Array_int) :
  48 <= room h ->
  exists h' l a,
    int_Array.new_Array_int h None 5 10 = Done (h', mkResult NO_ERROR (Block l))
    /\ deref h' (Block l) = Done a
    /\ int_Array.capacity a = 10
    /\ int_Array.get_item_Array_int h' (Block l) 9 = Done (Elem l 9)
    /\ is_null (Elem l 9) = false
    /\ int_Array.load h' (Elem l 9) = Done None
    /\ int_Array.get_item_Array_int h' (Block l) 10 = Done NULL.
Proof.
  intros Hroom.
  assert (Hreq : int_Array.request 10 = 48) by reflexivity.
  rewrite new_Array_int_absent_success;
    [|lia | unfold int_Array.sizeof_Array_int; machine_lia | lia].
  eexists _, _, _. split; [reflexivity|].
  split; [simpl; by rewrite lookup_insert_eq|].
  split; [reflexivity|].
  split; [|split; [reflexivity|split]].
  - eapply get_item_Array_int_in; [apply lookup_allocated | simpl; lia].
  - simpl. by rewrite lookup_insert_eq.
  - eapply get_item_Array_int_out; [apply lookup_allocated | simpl; lia].
Qed.

Lemma construct_absent_5_10_witness :
  48 <= room (empty_heap (T := int_Array.Array_int) 48 0) /\
  exists h' l a,
    int_Array.new_Array_int (empty_heap 48 0) None 5 10
    = Done (h', mkResult NO_ERROR (Block l))
    /\ deref h' (Block l) = Done a
    /\ int_Array.capacity a = 10
    /\ int_Array.get_item_Array_int h' (Block l) 9 = Done (Elem l 9)
    /\ is_null (Elem l 9) = false
    /\ int_Array.load h' (Elem l 9) = Done None
    /\ int_Array.get_item_Array_int h' (Block l) 10 = Done NULL.
Proof.
  split; [simpl; lia|]. apply construct_absent_5_10. simpl. lia.
Defined.

(** ** Cloning a plain array *)

(** C8: when the allocator satisfies the request, cloning a plain array
    (int or generic) returns a success [Result] whose payload is a new
    container with the capacity of the source and, at every index below
    the capacity, the element the source has there; the generic clone
    has the element size of the source as well. *)
Theorem clone_plain_array_full_copy :
  (forall h l a,
     blocks h !! l = Some a -> int_Array.wf a ->
     int_Array.request (int_Array.capacity a) <= room h ->
     exists h' l' a',
       int_Array.from_Array_int h (Block l) = Done (h', mkResult NO_ERROR (Block l'))
       /\ l' <> l
       /\ deref h' (Block l') = Done a'
       /\ deref h' (Block l) = Done a
       /\ int_Array.capacity a' = int_Array.capacity a
       /\ forall i, 0 <= i < int_Array.capacity a ->
            exists c,
              (int_Array.get_item_Array_int h' (Block l') i ≫= int_Array.load h') = Done c
              /\ (int_Array.get_item_Array_int h' (Block l) i ≫= int_Array.load h') = Done c)
  /\
  (forall h l a,
     blocks h !! l = Some a -> generic_Array.wf a ->
     generic_Array.request (generic_Array.capacity a) (generic_Array.type_size a)
       <= room h ->
     exists h' l' a',
       generic_Array.from_Array h (Block l) = Done (h', mkResult NO_ERROR (Block l'))
       /\ l' <> l
       /\ deref h' (Block l') = Done a'
       /\ deref h' (Block l) = Done a
       /\ generic_Array.capacity a' = generic_Array.capacity a
       /\ generic_Array.type_size a' = generic_Array.type_size a
       /\ forall i, 0 <= i < generic_Array.capacity a ->
            exists c,
              (generic_Array.get_item_Array h' (Block l') i ≫= generic_Array.load h') = Done c
              /\ (generic_Array.get_item_Array h' (Block l) i ≫= generic_Array.load h') = Done c).
Proof.
  split; intros h l a Hl Hwf Hroom.
  - rewrite (from_Array_int_success h l a); [|done..].
    destruct (lookup_allocated_old h (int_Array.request (int_Array.capacity a)) a l a Hl)
      as [Hold Hne].
    eexists _, _, a. split; [reflexivity|]. split; [done|].
    split; [apply deref_Block, lookup_allocated|].
    split; [by apply deref_Block|]. split; [done|].
    intros i Hi.
    destruct (int_Array_read _ _ a i
                (lookup_allocated h (fresh (dom (blocks h)))
                   (int_Array.request (int_Array.capacity a)) a) Hwf Hi)
      as (c & Hc & Hnew).
    destruct (int_Array_read _ _ a i Hold Hwf Hi) as (c' & Hc' & Hsrc).
    exists c. split; [done|]. congruence.
  - rewrite (from_Array_success h l a); [|done..].
    destruct (lookup_allocated_old h
                (generic_Array.request (generic_Array.capacity a)
                   (generic_Array.type_size a)) a l a Hl) as [Hold Hne].
    eexists _, _, a. split; [reflexivity|]. split; [done|].
    split; [apply deref_Block, lookup_allocated|].
    split; [by apply deref_Block|]. split; [done|]. split; [done|].
    intros i Hi. eexists. split.
    + apply (generic_Array_read _ _ a i
               (lookup_allocated h (fresh (dom (blocks h)))
                  (generic_Array.request (generic_Array.capacity a)
                     (generic_Array.type_size a)) a) Hwf Hi).
    + apply (generic_Array_read _ _ a i Hold Hwf Hi).
Qed.

Lemma clone_plain_array_full_copy_witness :
  let a := int_Array.mkArray_int 2 [Some 7; None] in
  let h : heap int_Array.Array_int := mkHeap {[1%positive := a]} 100 0 [] in
  let b := generic_Array.mkArray 2 2 [Some x01; Some x02; None; None] in
  let g : heap generic_Array.Array := mkHeap {[1%positive := b]} 100 0 [] in
  (blocks h !! 1%positive = Some a /\ int_Array.wf a
   /\ int_Array.request (int_Array.capacity a) <= room h
   /\ exists h' l' a',
       int_Array.from_Array_int h (Block 1%positive)
       = Done (h', mkResult NO_ERROR (Block l'))
       /\ deref h' (Block l') = Done a'
       /\ int_Array.capacity a' = 2)
  /\
  (blocks g !! 1%positive = Some b /\ generic_Array.wf b
   /\ generic_Array.request (generic_Array.capacity b) (generic_Array.type_size b)
      <= room g
   /\ exists g' l' b',
       generic_Array.from_Array g (Block 1%positive)
       = Done (g', mkResult NO_ERROR (Block l'))
       /\ deref g' (Block l') = Done b'
       /\ generic_Array.capacity b' = 2).
Proof.
  intros a h b g.
  assert (Ha : blocks h !! 1%positive = Some a) by reflexivity.
  assert (Hwa : int_Array.wf a).
  { unfold int_Array.wf, int_Array.sizeof_Array_int. simpl. machine_lia. }
  assert (Hra : int_Array.request (int_Array.capacity a) <= room h).
  { vm_compute. discriminate. }
  assert (Hb : blocks g !! 1%positive = Some b) by reflexivity.
  assert (Hwb : generic_Array.wf b).
  { unfold generic_Array.wf, generic_Array.sizeof_Array. simpl. machine_lia. }
  assert (Hrb : generic_Array.request (generic_Array.capacity b)
                  (generic_Array.type_size b) <= room g).
  { vm_compute. discriminate. }
  split.
  - do 3 (split; [done|]).
    destruct (proj1 clone_plain_array_full_copy h 1%positive a Ha Hwa Hra)
      as (h' & l' & a' & Hc & _ & Hd & _ & Hcap & _).
    exists h', l', a'. by rewrite Hcap.
  - do 3 (split; [done|]).
    destruct (proj2 clone_plain_array_full_copy g 1%positive b Hb Hwb Hrb)
      as (g' & l' & b' & Hc & _ & Hd & _ & Hcap & _).
    exists g', l', b'. by rewrite Hcap.
Defined.

(** ** The size invariant of strict arrays *)





(** * Further properties of the code *)

(** ** What the factories return *)

Section tagged_facts.
Context {T : Type}.
Implicit Types (h : heap T) (l : loc) (v : T).

Lemma tagged_failure h s m :
  s <> NO_ERROR -> tagged h h (mkResult s (Lit m)).
Proof. intros Hs. unfold tagged. simpl. destruct s; try done; eauto. Qed.

Lemma tagged_allocated h n l v out :
  malloc h n = Some l ->
  tagged h (print (allocated h l n v) out) (mkResult NO_ERROR (Block l)).
Proof.
  intros Hm. unfold tagged. simpl. exists l. split; [done|].
  split; [by apply (malloc_fresh h n)|].
  split; [rewrite lookup_insert_eq; eauto|].
  intros l' Hne. by rewrite lookup_insert_ne.
Qed.

Lemma print_nothing h : print h [] = h.
Proof. destruct h. unfold print. simpl. by rewrite app_nil_r. Qed.

Lemma tagged_allocated_quiet h n l v :
  malloc h n = Some l ->
  tagged h (allocated h l n v) (mkResult NO_ERROR (Block l)).
Proof.
  intros Hm. rewrite <- (print_nothing (allocated h l n v)).
  by apply tagged_allocated.
Qed.

End tagged_facts.

Lemma new_Array_int_tagged h src size cap h' r :
  int_Array.new_Array_int h src size cap = Done (h', r) -> tagged h h' r.
Proof.
  unfold int_Array.new_Array_int.
  destruct (cap <? _).
  { intros [= <- <-]. by apply tagged_failure. }
  destruct (malloc h _) as [l|] eqn:Hm.
  2:{ intros [= <- <-]. by apply tagged_failure. }
  intros (a & _ & H)%bind_Done. apply bind_Done in H as (d & _ & [= <- <-]).
  by eapply tagged_allocated_quiet.
Qed.

Lemma new_Array_tagged h src size cap ts h' r :
  generic_Array.new_Array h src size cap ts = Done (h', r) -> tagged h h' r.
Proof.
  unfold generic_Array.new_Array.
  destruct (cap <? _).
  { intros [= <- <-]. by apply tagged_failure. }
  destruct (ts <=? 0).
  { intros [= <- <-]. by apply tagged_failure. }
  destruct (malloc h _) as [l|] eqn:Hm.
  2:{ intros [= <- <-]. by apply tagged_failure. }
  intros (a & _ & H)%bind_Done. apply bind_Done in H as (d & _ & [= <- <-]).
  by eapply tagged_allocated_quiet.
Qed.

Lemma new_StrictArray_int_tagged h src size cap h' r :
  int_StrictArray.new_StrictArray_int h src size cap = Done (h', r) ->
  tagged h h' r.
Proof.
  unfold int_StrictArray.new_StrictArray_int.
  destruct (_ || _).
  { intros [= <- <-]. by apply tagged_failure. }
  destruct (malloc h _) as [l|] eqn:Hm.
  2:{ intros [= <- <-]. by apply tagged_failure. }
  intros (a & _ & H)%bind_Done. apply bind_Done in H as (d & _ & H).
  apply bind_Done in H as (out & _ & [= <- <-]).
  by eapply tagged_allocated.
Qed.

Lemma new_StrictArray_tagged h src ts size cap h' r :
  generic_StrictArray.new_StrictArray h src ts size cap = Done (h', r) ->
  tagged h h' r.
Proof.
  unfold generic_StrictArray.new_StrictArray.
  destruct (_ || _).
  { intros [= <- <-]. by apply tagged_failure. }
  destruct (ts <=? 0).
  { intros [= <- <-]. by apply tagged_failure. }
  destruct (malloc h _) as [l|] eqn:Hm.
  2:{ intros [= <- <-]. by apply tagged_failure. }
  intros (a & _ & H)%bind_Done. apply bind_Done in H as (d & _ & [= <- <-]).
  by eapply tagged_allocated_quiet.
Qed.

(** X1: whatever its arguments, a constructor that returns hands back
    either [NO_ERROR] with the address of a block that was not live
    before and is live now, every other block being as it was, or a
    failure status with a message string and the heap it was given. *)
Theorem constructors_tagged :
  (forall h src size cap h' r,
     int_Array.new_Array_int h src size cap = Done (h', r) -> tagged h h' r)
  /\ (forall h src size cap ts h' r,
     generic_Array.new_Array h src size cap ts = Done (h', r) -> tagged h h' r)
  /\ (forall h src size cap h' r,
     int_StrictArray.new_StrictArray_int h src size cap = Done (h', r) ->
     tagged h h' r)
  /\ (forall h src ts size cap h' r,
     generic_StrictArray.new_StrictArray h src ts size cap = Done (h', r) ->
     tagged h h' r).
Proof.
  split; [exact new_Array_int_tagged|].
  split; [exact new_Array_tagged|].
  split; [exact new_StrictArray_int_tagged | exact new_StrictArray_tagged].
Qed.

Lemma constructors_tagged_witness :
  let h : heap int_Array.Array_int := empty_heap 4096 0 in
  let h' : heap int_Array.Array_int :=
    mkHeap {[1%positive := int_Array.mkArray_int 2 [Some 7; None]]} 4080 0 [] in
  int_Array.new_Array_int h (Some [Some 7]) 1 2
  = Done (h', mkResult NO_ERROR (Block 1%positive))
  /\ tagged h h' (mkResult NO_ERROR (Block 1%positive)).
Proof.
  intros h h'.
  assert (Hnew : int_Array.new_Array_int h (Some [Some 7]) 1 2
                 = Done (h', mkResult NO_ERROR (Block 1%positive))).
  { vm_compute. reflexivity. }
  split; [exact Hnew|].
  exact (proj1 constructors_tagged _ _ _ _ _ _ Hnew).
Defined.

(** X2: the same holds for the four clone functions, the null-source
    refusal included: a clone that returns hands back a fresh live block
    with every other block, the source among them, as it was, or a
    failure with a message and the heap unchanged. *)
Theorem clones_tagged :
  (forall h from h' r,
     int_Array.from_Array_int h from = Done (h', r) -> tagged h h' r)
  /\ (forall h from h' r,
     generic_Array.from_Array h from = Done (h', r) -> tagged h h' r)
  /\ (forall h from h' r,
     int_StrictArray.from_StrictArray_int h from = Done (h', r) -> tagged h h' r)
  /\ (forall h from h' r,
     generic_StrictArray.from_StrictArray h from = Done (h', r) -> tagged h h' r).
Proof.
  repeat split; intros h from h' r.
  - unfold int_Array.from_Array_int. destruct (is_null from).
    { intros [= <- <-]. by apply tagged_failure. }
    intros (a & _ & H)%bind_Done. by apply new_Array_int_tagged in H.
  - unfold generic_Array.from_Array. destruct (is_null from).
    { intros [= <- <-]. by apply tagged_failure. }
    intros (a & _ & H)%bind_Done. by apply new_Array_tagged in H.
  - unfold int_StrictArray.from_StrictArray_int. destruct (is_null from).
    { intros [= <- <-]. by apply tagged_failure. }
    intros (a & _ & H)%bind_Done. revert H.
    destruct (malloc h _) as [l|] eqn:Hm.
    2:{ intros [= <- <-]. by apply tagged_failure. }
    intros (b & _ & H)%bind_Done. apply bind_Done in H as (d & _ & [= <- <-]).
    by eapply tagged_allocated_quiet.
  - unfold generic_StrictArray.from_StrictArray. destruct (is_null from).
    { intros [= <- <-]. by apply tagged_failure. }
    intros (a & _ & H)%bind_Done. revert H.
    destruct (malloc h _) as [l|] eqn:Hm.
    2:{ intros [= <- <-]. by apply tagged_failure. }
    intros (b & _ & H)%bind_Done. apply bind_Done in H as (d & _ & [= <- <-]).
    by eapply tagged_allocated_quiet.
Qed.

Lemma clones_tagged_witness :
  let a := int_StrictArray.mkStrictArray_int 1 2 [Some 7; Some 8] in
  let h : heap int_StrictArray.StrictArray_int :=
    mkHeap {[1%positive := a]} 100 0 [] in
  let h' : heap int_StrictArray.StrictArray_int :=
    mkHeap {[1%positive := a; 2%positive := a]} 76 0 [] in
  int_StrictArray.from_StrictArray_int h (Block 1%positive)
  = Done (h', mkResult NO_ERROR (Block 2%positive))
  /\ tagged h h' (mkResult NO_ERROR (Block 2%positive)).
Proof.
  intros a h h'.
  assert (Hc : int_StrictArray.from_StrictArray_int h (Block 1%positive)
               = Done (h', mkResult NO_ERROR (Block 2%positive))).
  { vm_compute. reflexivity. }
  split; [exact Hc|].
  exact (proj1 (proj2 (proj2 clones_tagged)) _ _ _ _ Hc).
Defined.

(** X3: unwrapping such a [Result] with [get_data_p] leaves exactly one
    of the output slot and the returned message non-null: a live handle
    and a null message on success, a null slot and a message string on
    failure. *)
Theorem unwrap_tagged {T} (h h' : heap T) (r : Result) (p : pointer) :
  tagged h h' r ->
  (ok r = NO_ERROR /\ exists l,
     get_data_p (Some r) (Some p) = Done (Some (Block l), NULL)
     /\ is_Some (blocks h' !! l))
  \/ (ok r <> NO_ERROR /\ exists m,
     get_data_p (Some r) (Some p) = Done (Some NULL, Lit m)).
Proof.
  intros Ht. rewrite get_data_p_present. unfold tagged in Ht.
  destruct r as [s w]. simpl in *.
  destruct s; simpl;
    try (right; split; [done|]; destruct Ht as (_ & m & ->); by exists m).
  left. split; [done|]. destruct Ht as (l & -> & _ & Hl & _). by exists l.
Qed.

Lemma unwrap_tagged_witness :
  let h : heap int_Array.Array_int := empty_heap 4096 0 in
  let h' : heap int_Array.Array_int :=
    mkHeap {[1%positive := int_Array.mkArray_int 2 [Some 7; None]]} 4080 0 [] in
  let r := mkResult NO_ERROR (Block 1%positive) in
  tagged h h' r
  /\ get_data_p (Some r) (Some NULL) = Done (Some (Block 1%positive), NULL).
Proof.
  intros h h' r.
  assert (Ht : tagged h h' r).
  { exists 1%positive. split; [reflexivity|]. split; [reflexivity|].
    split; [by eexists|]. intros l' Hne. simpl.
    by rewrite lookup_singleton_ne, lookup_empty. }
  split; [exact Ht|].
  destruct (unwrap_tagged h h' r NULL Ht) as [(_ & l & Hg & _)|(Hne & _)].
  - reflexivity.
  - by destruct Hne.
Defined.

(** ** Construction *)

(** X4: when the block size [sizeof(Array_int) + capacity * sizeof(int)]
    does not exceed [SIZE_MAX], a successful [new_Array_int] yields a
    container in which [get] below the count reads the corresponding
    source element, [get] from the count up to the capacity reads an
    indeterminate [int], and [get] from the capacity on returns the
    null pointer. *)
Theorem new_Array_int_contents h src size cap :
  0 <= size <= cap -> size <= Z.of_nat (length src) ->
  int_Array.sizeof_Array_int + cap * sizeof_int <= SIZE_MAX ->
  int_Array.request cap <= room h ->
  exists h' l,
    int_Array.new_Array_int h (Some src) size cap
    = Done (h', mkResult NO_ERROR (Block l))
    /\ (forall i, 0 <= i < size ->
          exists c, src !! Z.to_nat i = Some c
            /\ (int_Array.get_item_Array_int h' (Block l) i ≫= int_Array.load h')
               = Done c)
    /\ (forall i, size <= i < cap ->
          (int_Array.get_item_Array_int h' (Block l) i ≫= int_Array.load h')
          = Done None)
    /\ (forall i, cap <= i ->
          int_Array.get_item_Array_int h' (Block l) i = Done NULL).
Proof.
  intros Hsz Hsrc Hfit Hroom.
  rewrite new_Array_int_success; [|done..].
  set (a := int_Array.mkArray_int cap _).
  set (l := fresh (dom (blocks h))).
  set (h' := allocated h l _ a).
  assert (Hl : blocks h' !! l = Some a) by apply lookup_allocated.
  assert (Htake : length (take (Z.to_nat size) src) = Z.to_nat size).
  { rewrite length_take. lia. }
  assert (Hwf : int_Array.wf a).
  { unfold int_Array.wf, a. simpl.
    rewrite length_app, Htake, length_replicate. lia. }
  exists h', l. split; [done|]. split; [|split].
  - intros i Hi.
    destruct (int_Array_read h' l a i Hl Hwf) as (c & Hc & Hread); [simpl; lia|].
    exists c. split; [|done].
    unfold a in Hc. simpl in Hc.
    rewrite lookup_app_l in Hc; [|lia]. rewrite lookup_take_lt in Hc; [done|lia].
  - intros i Hi.
    destruct (int_Array_read h' l a i Hl Hwf) as (c & Hc & Hread); [simpl; lia|].
    unfold a in Hc. simpl in Hc.
    rewrite lookup_app_r in Hc; [|lia].
    apply lookup_replicate_1 in Hc as [-> _]. done.
  - intros i Hi. by apply (get_item_Array_int_out h' l a).
Qed.

Lemma new_Array_int_contents_witness :
  let h : heap int_Array.Array_int := empty_heap 4096 0 in
  (0 <= 2 <= 3 /\ 2 <= Z.of_nat (length [Some 7; Some 8; Some 9])
   /\ int_Array.sizeof_Array_int + 3 * sizeof_int <= SIZE_MAX
   /\ int_Array.request 3 <= room h)
  /\ exists h' l,
       int_Array.new_Array_int h (Some [Some 7; Some 8; Some 9]) 2 3
       = Done (h', mkResult NO_ERROR (Block l))
       /\ (int_Array.get_item_Array_int h' (Block l) 1 ≫= int_Array.load h')
          = Done (Some 8)
       /\ (int_Array.get_item_Array_int h' (Block l) 2 ≫= int_Array.load h')
          = Done None
       /\ int_Array.get_item_Array_int h' (Block l) 3 = Done NULL.
Proof.
  intros h.
  assert (H1 : 0 <= 2 <= 3) by lia.
  assert (H2 : 2 <= Z.of_nat (length [Some 7; Some 8; Some 9])) by (simpl; lia).
  assert (H3 : int_Array.sizeof_Array_int + 3 * sizeof_int <= SIZE_MAX).
  { vm_compute. discriminate. }
  assert (H4 : int_Array.request 3 <= room h) by (vm_compute; discriminate).
  split; [done|].
  destruct (new_Array_int_contents h [Some 7; Some 8; Some 9] 2 3 H1 H2 H3 H4)
    as (h' & l & Hnew & Hlow & Hmid & Hhigh).
  exists h', l. split; [done|].
  destruct (Hlow 1) as (c & Hc & Hread); [lia|].
  injection Hc as <-.
  split; [done|]. split; [apply Hmid; lia | apply Hhigh; lia].
Defined.

(** X5: a request that passes validation on a heap without room for the
    block is answered with [HEAP_FAILURE] by every constructor, and the
    heap stays as it was. *)
Theorem constructors_heap_failure (size cap : Z) :
  0 <= size <= cap ->
  (forall h src,
     room h < int_Array.request cap ->
     int_Array.new_Array_int h src size cap
     = Done (h, mkResult HEAP_FAILURE
                  (Lit "AllocationError: Not enough memory in the heap")))
  /\ (forall h src ts,
     1 <= ts -> room h < generic_Array.request cap ts ->
     generic_Array.new_Array h src size cap ts
     = Done (h, mkResult HEAP_FAILURE
                  (Lit "AllocationError: Not enough memory in the heap")))
  /\ (forall h src,
     room h < int_StrictArray.request cap ->
     int_StrictArray.new_StrictArray_int h src size cap
     = Done (h, mkResult HEAP_FAILURE
                  (Lit "AllocationError: Not enough memory in the heap")))
  /\ (forall h src ts,
     1 <= ts -> room h < generic_StrictArray.request ts cap ->
     generic_StrictArray.new_StrictArray h src ts size cap
     = Done (h, mkResult HEAP_FAILURE
                  (Lit "AllocationError: Not enough memory in the heap"))).
Proof.
  intros Hsz.
  assert (Hcount : forall A (src : option (list A)),
            0 <= (if absent src then 0 else size) <= cap).
  { intros A [s|]; simpl; lia. }
  repeat split.
  - intros h src Hroom. unfold int_Array.new_Array_int.
    destruct (Hcount _ src) as [H0 H1].
    assert (E : (cap <? (if absent src then 0 else size)) = false)
      by (apply Z.ltb_ge; lia).
    rewrite E. fold (int_Array.request cap). by rewrite malloc_no_room.
  - intros h src ts Hts Hroom. unfold generic_Array.new_Array.
    destruct (Hcount _ src) as [H0 H1].
    assert (E : (cap <? (if absent src then 0 else size)) = false)
      by (apply Z.ltb_ge; lia).
    assert (E' : (ts <=? 0) = false) by (apply Z.leb_gt; lia).
    rewrite E, E'. fold (generic_Array.request cap ts). by rewrite malloc_no_room.
  - intros h src Hroom. unfold int_StrictArray.new_StrictArray_int.
    destruct (Hcount _ src) as [H0 H1].
    assert (E : ((if absent src then 0 else size) <? 0)
                || (cap <? (if absent src then 0 else size)) = false).
    { apply orb_false_iff. split; apply Z.ltb_ge; lia. }
    rewrite E. fold (int_StrictArray.request cap). by rewrite malloc_no_room.
  - intros h src ts Hts Hroom. unfold generic_StrictArray.new_StrictArray.
    destruct (Hcount _ src) as [H0 H1].
    assert (E : ((if absent src then 0 else size) <? 0)
                || (cap <? (if absent src then 0 else size)) = false).
    { apply orb_false_iff. split; apply Z.ltb_ge; lia. }
    assert (E' : (ts <=? 0) = false) by (apply Z.leb_gt; lia).
    rewrite E, E'. fold (generic_StrictArray.request ts cap).
    by rewrite malloc_no_room.
Qed.

Lemma constructors_heap_failure_witness :
  let h : heap int_StrictArray.StrictArray_int := empty_heap 27 0 in
  (0 <= 1 <= 3 /\ room h < int_StrictArray.request 3)
  /\ int_StrictArray.new_StrictArray_int h (Some [Some 7]) 1 3
     = Done (h, mkResult HEAP_FAILURE
                  (Lit "AllocationError: Not enough memory in the heap")).
Proof.
  intros h.
  assert (H1 : 0 <= 1 <= 3) by lia.
  assert (H2 : room h < int_StrictArray.request 3) by (vm_compute; reflexivity).
  split; [done|].
  destruct (constructors_heap_failure 1 3 H1) as (_ & _ & Hs & _).
  by apply Hs.
Defined.

(** X6: the generic constructors refuse an element size below one byte
    with [INVALID_SIZE], whatever the source, count and capacity, and
    leave the heap as it was. *)
Theorem generic_constructors_reject_type_size (ts : Z) :
  ts <= 0 ->
  (forall h src size cap, exists m,
     generic_Array.new_Array h src size cap ts
     = Done (h, mkResult INVALID_SIZE (Lit m)))
  /\ (forall h src size cap, exists m,
     generic_StrictArray.new_StrictArray h src ts size cap
     = Done (h, mkResult INVALID_SIZE (Lit m))).
Proof.
  intros Hts. apply Z.leb_le in Hts. split; intros h src size cap.
  - unfold generic_Array.new_Array. destruct (cap <? _); [by eexists|].
    rewrite Hts. by eexists.
  - unfold generic_StrictArray.new_StrictArray. destruct (_ || _); [by eexists|].
    rewrite Hts. by eexists.
Qed.

Lemma generic_constructors_reject_type_size_witness :
  0 <= 0
  /\ generic_Array.new_Array (empty_heap 4096 0) (Some [Some x01]) 1 1 0
     = Done (empty_heap 4096 0,
             mkResult INVALID_SIZE
               (Lit ("SizeError: Type cannot have less than 1 byte" ++ nl))).
Proof.
  split; [lia|].
  destruct (generic_constructors_reject_type_size 0) as [Ha _]; [lia|].
  destruct (Ha (empty_heap 4096 0) (Some [Some x01]) 1 1) as [m Hm].
  rewrite Hm. vm_compute in Hm. by injection Hm as <-.
Defined.

(** ** Destruction *)

Section free_facts.
Context {T : Type}.
Implicit Types (h : heap T) (l : loc) (v : T) (bytes : T -> Z).

Lemma free_allocated bytes h l n v out :
  blocks h !! l = None -> bytes v = n ->
  free bytes (print (allocated h l n v) out) (Block l) = Done (print h out).
Proof.
  intros Hl Hb. unfold free. simpl. rewrite lookup_insert_eq.
  rewrite delete_insert_id; [|done]. rewrite Hb.
  unfold print. do 2 f_equal. lia.
Qed.

Lemma free_allocated_quiet bytes h l n v :
  blocks h !! l = None -> bytes v = n ->
  free bytes (allocated h l n v) (Block l) = Done h.
Proof.
  intros Hl Hb. rewrite <- (print_nothing (allocated h l n v)).
  rewrite (free_allocated bytes h l n v []); [|done..]. by rewrite print_nothing.
Qed.

Lemma free_live bytes h l v :
  blocks h !! l = Some v ->
  free bytes h (Block l)
  = Done (mkHeap (delete l (blocks h)) (room h + bytes v) (junk h) (stdout h)).
Proof. intros Hl. unfold free. by rewrite Hl. Qed.

End free_facts.

(** On the address of a block each destructor releases the block and
    resets the handle variable. *)
Lemma free_Array_int_Block h l :
  int_Array.free_Array_int h (Some (Block l))
  = (free int_Array.block_size h (Block l) ≫= fun h' => Done (h', Some NULL)).
Proof. reflexivity. Qed.

Lemma free_Array_Block h l :
  generic_Array.free_Array h (Some (Block l))
  = (free generic_Array.block_size h (Block l) ≫= fun h' => Done (h', Some NULL)).
Proof. reflexivity. Qed.

Lemma free_StrictArray_int_Block h l :
  int_StrictArray.free_StrictArray_int h (Some (Block l))
  = (free int_StrictArray.block_size h (Block l)
       ≫= fun h' => Done (h', Some NULL)).
Proof. reflexivity. Qed.

Lemma free_StrictArray_Block h l :
  generic_StrictArray.free_StrictArray h (Some (Block l))
  = (free generic_StrictArray.block_size h (Block l)
       ≫= fun h' => Done (h', Some NULL)).
Proof. reflexivity. Qed.

Lemma new_Array_int_allocated h src size cap h' p :
  0 <= cap -> int_Array.sizeof_Array_int + cap * sizeof_int <= SIZE_MAX ->
  int_Array.new_Array_int h src size cap = Done (h', mkResult NO_ERROR p) ->
  exists a,
    p = Block (fresh (dom (blocks h)))
    /\ h' = allocated h (fresh (dom (blocks h))) (int_Array.request cap) a
    /\ int_Array.block_size a = int_Array.request cap.
Proof.
  intros H0 Hfit. unfold int_Array.new_Array_int.
  destruct (cap <? _); [discriminate|].
  fold (int_Array.request cap). unfold malloc.
  destruct (int_Array.request cap <=? room h); [|discriminate].
  rewrite int_Array_raw_request; [|lia..]. simpl.
  intros (d & Hd & H)%bind_Done. injection H as <- <-.
  apply memcpy_length in Hd; [|done|].
  2:{ apply Z.div_pos; [|machine_lia]. unfold size_t. apply Z.mod_pos_bound. machine_lia. }
  rewrite length_replicate in Hd.
  eexists. split; [done|]. split; [done|].
  rewrite int_Array_request_small; [|lia..].
  unfold int_Array.block_size. simpl. rewrite Hd. unfold sizeof_int. lia.
Qed.

Lemma new_Array_allocated h src size cap ts h' p :
  0 <= cap -> generic_Array.sizeof_Array + cap * ts <= SIZE_MAX ->
  generic_Array.new_Array h src size cap ts = Done (h', mkResult NO_ERROR p) ->
  exists a,
    p = Block (fresh (dom (blocks h)))
    /\ h' = allocated h (fresh (dom (blocks h))) (generic_Array.request cap ts) a
    /\ generic_Array.block_size a = generic_Array.request cap ts.
Proof.
  intros H0 Hfit. unfold generic_Array.new_Array.
  destruct (cap <? _); [discriminate|].
  destruct (ts <=? 0) eqn:E'; [discriminate|]. apply Z.leb_gt in E'.
  assert (Hle : 0 <= cap * ts) by nia.
  fold (generic_Array.request cap ts). unfold malloc.
  destruct (generic_Array.request cap ts <=? room h); [|discriminate].
  rewrite generic_Array_raw_request; [|lia..]. simpl.
  intros (d & Hd & H)%bind_Done. injection H as <- <-.
  apply memcpy_length in Hd; [|done|].
  2:{ unfold size_t. apply Z.mod_pos_bound. machine_lia. }
  rewrite length_replicate in Hd.
  eexists. split; [done|]. split; [done|].
  rewrite generic_Array_request_small; [|lia..].
  unfold generic_Array.block_size. simpl. rewrite Hd. lia.
Qed.

Lemma new_StrictArray_int_allocated h src size cap h' p :
  int_StrictArray.sizeof_StrictArray_int + cap * sizeof_int <= SIZE_MAX ->
  int_StrictArray.new_StrictArray_int h src size cap
  = Done (h', mkResult NO_ERROR p) ->
  exists a out,
    p = Block (fresh (dom (blocks h)))
    /\ h' = print (allocated h (fresh (dom (blocks h)))
                     (int_StrictArray.request cap) a) out
    /\ int_StrictArray.block_size a = int_StrictArray.request cap.
Proof.
  intros Hfit. unfold int_StrictArray.new_StrictArray_int.
  set (sz := if absent src then 0 else size).
  destruct ((sz <? 0) || (cap <? sz)) eqn:E; [discriminate|].
  apply orb_false_iff in E as [E1%Z.ltb_ge E2%Z.ltb_ge].
  fold (int_StrictArray.request cap). unfold malloc.
  destruct (int_StrictArray.request cap <=? room h); [|discriminate].
  rewrite int_StrictArray_raw_request; [|lia..]. simpl.
  intros (d & Hd & H)%bind_Done. apply bind_Done in H as (out & _ & H).
  injection H as <- <-.
  apply memcpy_length in Hd; [|done|].
  2:{ apply Z.div_pos; [|machine_lia]. unfold size_t. apply Z.mod_pos_bound. machine_lia. }
  rewrite length_replicate in Hd.
  eexists _, out. split; [done|]. split; [done|].
  rewrite int_StrictArray_request_small; [|lia..].
  unfold int_StrictArray.block_size. simpl. rewrite Hd. unfold sizeof_int. lia.
Qed.

Lemma new_StrictArray_allocated h src ts size cap h' p :
  generic_StrictArray.sizeof_StrictArray + ts * cap <= SIZE_MAX ->
  generic_StrictArray.new_StrictArray h src ts size cap
  = Done (h', mkResult NO_ERROR p) ->
  exists a,
    p = Block (fresh (dom (blocks h)))
    /\ h' = allocated h (fresh (dom (blocks h)))
              (generic_StrictArray.request ts cap) a
    /\ generic_StrictArray.block_size a = generic_StrictArray.request ts cap.
Proof.
  intros Hfit. unfold generic_StrictArray.new_StrictArray.
  set (sz := if absent src then 0 else size).
  destruct ((sz <? 0) || (cap <? sz)) eqn:E; [discriminate|].
  apply orb_false_iff in E as [E1%Z.ltb_ge E2%Z.ltb_ge].
  destruct (ts <=? 0) eqn:E'; [discriminate|]. apply Z.leb_gt in E'.
  assert (Hle : 0 <= ts * cap) by nia.
  fold (generic_StrictArray.request ts cap). unfold malloc.
  destruct (generic_StrictArray.request ts cap <=? room h); [|discriminate].
  rewrite generic_StrictArray_raw_request; [|lia..]. simpl.
  intros (d & Hd & H)%bind_Done. injection H as <- <-.
  apply memcpy_length in Hd; [|done|].
  2:{ unfold size_t. apply Z.mod_pos_bound. machine_lia. }
  rewrite length_replicate in Hd.
  eexists. split; [done|]. split; [done|].
  rewrite generic_StrictArray_request_small; [|lia..].
  unfold generic_StrictArray.block_size. simpl. rewrite Hd. lia.
Qed.

(** X7: destroying a plain array right after a successful construction
    gives back the heap the constructor was called on, blocks and free
    bytes alike, and resets the handle variable to null. *)
Theorem plain_construct_free :
  (forall h src size cap h' p,
     0 <= cap -> int_Array.sizeof_Array_int + cap * sizeof_int <= SIZE_MAX ->
     int_Array.new_Array_int h src size cap = Done (h', mkResult NO_ERROR p) ->
     int_Array.free_Array_int h' (Some p) = Done (h, Some NULL))
  /\ (forall h src size cap ts h' p,
     0 <= cap -> generic_Array.sizeof_Array + cap * ts <= SIZE_MAX ->
     generic_Array.new_Array h src size cap ts = Done (h', mkResult NO_ERROR p) ->
     generic_Array.free_Array h' (Some p) = Done (h, Some NULL)).
Proof.
  split.
  - intros h src size cap h' p H0 Hfit Hnew.
    destruct (new_Array_int_allocated _ _ _ _ _ _ H0 Hfit Hnew) as (a & -> & -> & Hb).
    rewrite free_Array_int_Block.
    by rewrite free_allocated_quiet; [|apply fresh_block_free|done].
  - intros h src size cap ts h' p H0 Hfit Hnew.
    destruct (new_Array_allocated _ _ _ _ _ _ _ H0 Hfit Hnew) as (a & -> & -> & Hb).
    rewrite free_Array_Block.
    by rewrite free_allocated_quiet; [|apply fresh_block_free|done].
Qed.

Lemma plain_construct_free_witness :
  let h : heap int_Array.Array_int := empty_heap 4096 0 in
  let h' : heap int_Array.Array_int :=
    mkHeap {[1%positive := int_Array.mkArray_int 2 [Some 7; None]]} 4080 0 [] in
  (0 <= 2 /\ int_Array.sizeof_Array_int + 2 * sizeof_int <= SIZE_MAX
   /\ int_Array.new_Array_int h (Some [Some 7]) 1 2
      = Done (h', mkResult NO_ERROR (Block 1%positive)))
  /\ int_Array.free_Array_int h' (Some (Block 1%positive)) = Done (h, Some NULL).
Proof.
  intros h h'.
  assert (H0 : 0 <= 2) by lia.
  assert (Hfit : int_Array.sizeof_Array_int + 2 * sizeof_int <= SIZE_MAX).
  { vm_compute. discriminate. }
  assert (Hnew : int_Array.new_Array_int h (Some [Some 7]) 1 2
                 = Done (h', mkResult NO_ERROR (Block 1%positive))).
  { vm_compute. reflexivity. }
  split; [done|].
  exact (proj1 plain_construct_free _ _ _ _ _ _ H0 Hfit Hnew).
Defined.

(** X8: destroying a strict array right after a successful construction
    gives back the blocks and the free bytes of the heap the constructor
    was called on and resets the handle variable to null; of the int
    constructor only the lines it printed remain. *)
Theorem strict_construct_free :
  (forall h src size cap h' p,
     int_StrictArray.sizeof_StrictArray_int + cap * sizeof_int <= SIZE_MAX ->
     int_StrictArray.new_StrictArray_int h src size cap
     = Done (h', mkResult NO_ERROR p) ->
     exists out,
       int_StrictArray.free_StrictArray_int h' (Some p)
       = Done (print h out, Some NULL))
  /\ (forall h src ts size cap h' p,
     generic_StrictArray.sizeof_StrictArray + ts * cap <= SIZE_MAX ->
     generic_StrictArray.new_StrictArray h src ts size cap
     = Done (h', mkResult NO_ERROR p) ->
     generic_StrictArray.free_StrictArray h' (Some p) = Done (h, Some NULL)).
Proof.
  split.
  - intros h src size cap h' p Hfit Hnew.
    destruct (new_StrictArray_int_allocated _ _ _ _ _ _ Hfit Hnew)
      as (a & out & -> & -> & Hb).
    exists out. rewrite free_StrictArray_int_Block.
    by rewrite free_allocated; [|apply fresh_block_free|done].
  - intros h src ts size cap h' p Hfit Hnew.
    destruct (new_StrictArray_allocated _ _ _ _ _ _ _ Hfit Hnew) as (a & -> & -> & Hb).
    rewrite free_StrictArray_Block.
    by rewrite free_allocated_quiet; [|apply fresh_block_free|done].
Qed.

Lemma strict_construct_free_witness :
  let h : heap int_StrictArray.StrictArray_int := empty_heap 4096 0 in
  let h' : heap int_StrictArray.StrictArray_int :=
    mkHeap {[1%positive := int_StrictArray.mkStrictArray_int 1 2 [Some 7; None]]}
           4072 0 [Some 7] in
  (int_StrictArray.sizeof_StrictArray_int + 2 * sizeof_int <= SIZE_MAX
   /\ int_StrictArray.new_StrictArray_int h (Some [Some 7]) 1 2
      = Done (h', mkResult NO_ERROR (Block 1%positive)))
  /\ exists out,
       int_StrictArray.free_StrictArray_int h' (Some (Block 1%positive))
       = Done (print h out, Some NULL).
Proof.
  intros h h'.
  assert (Hfit : int_StrictArray.sizeof_StrictArray_int + 2 * sizeof_int <= SIZE_MAX).
  { vm_compute. discriminate. }
  assert (Hnew : int_StrictArray.new_StrictArray_int h (Some [Some 7]) 1 2
                 = Done (h', mkResult NO_ERROR (Block 1%positive))).
  { vm_compute. reflexivity. }
  split; [done|].
  exact (proj1 strict_construct_free _ _ _ _ _ _ Hfit Hnew).
Defined.

(** X9: whatever the first call did, calling a destructor again with
    the handle variable as the first call left it changes neither the
    heap nor the variable: a double destroy through the same variable is
    harmless, as is a destroy of an absent or a null handle. *)
Theorem free_twice :
  (forall h s h1 s1,
     int_Array.free_Array_int h s = Done (h1, s1) ->
     int_Array.free_Array_int h1 s1 = Done (h1, s1))
  /\ (forall h s h1 s1,
     generic_Array.free_Array h s = Done (h1, s1) ->
     generic_Array.free_Array h1 s1 = Done (h1, s1))
  /\ (forall h s h1 s1,
     int_StrictArray.free_StrictArray_int h s = Done (h1, s1) ->
     int_StrictArray.free_StrictArray_int h1 s1 = Done (h1, s1))
  /\ (forall h s h1 s1,
     generic_StrictArray.free_StrictArray h s = Done (h1, s1) ->
     generic_StrictArray.free_StrictArray h1 s1 = Done (h1, s1)).
Proof.
  repeat split; intros h [p|] h1 s1;
    try (by intros [= <- <-]);
    destruct p as [|m|l|l off]; try (by intros [= <- <-]); try discriminate.
  - rewrite free_Array_int_Block.
    intros (h' & _ & [= <- <-])%bind_Done. reflexivity.
  - rewrite free_Array_Block.
    intros (h' & _ & [= <- <-])%bind_Done. reflexivity.
  - rewrite free_StrictArray_int_Block.
    intros (h' & _ & [= <- <-])%bind_Done. reflexivity.
  - rewrite free_StrictArray_Block.
    intros (h' & _ & [= <- <-])%bind_Done. reflexivity.
Qed.

Lemma free_twice_witness :
  let h : heap generic_StrictArray.StrictArray :=
    mkHeap {[1%positive := generic_StrictArray.mkStrictArray 1 1 2
                             [Some x01; Some x02]]} 74 0 [] in
  generic_StrictArray.free_StrictArray h (Some (Block 1%positive))
  = Done (empty_heap 100 0, Some NULL)
  /\ generic_StrictArray.free_StrictArray (empty_heap 100 0) (Some NULL)
     = Done (empty_heap 100 0, Some NULL).
Proof.
  intros h.
  assert (Hf : generic_StrictArray.free_StrictArray h (Some (Block 1%positive))
               = Done (empty_heap 100 0, Some NULL)).
  { vm_compute. reflexivity. }
  split; [exact Hf|].
  exact (proj2 (proj2 (proj2 free_twice)) _ _ _ _ Hf).
Defined.

(** X10: destroying a live plain array releases exactly its block: the
    block is gone, every other block is as it was, its bytes are back
    with the allocator and the handle variable is null; a copy of the
    old handle is dangling, so [get] through it is undefined, while
    [get] through the reset variable returns the null pointer. *)
Theorem free_plain_releases_block :
  (forall h l a,
     blocks h !! l = Some a ->
     exists h1,
       int_Array.free_Array_int h (Some (Block l)) = Done (h1, Some NULL)
       /\ blocks h1 !! l = None
       /\ (forall l', l' <> l -> blocks h1 !! l' = blocks h !! l')
       /\ room h1 = room h + int_Array.block_size a
       /\ forall i, int_Array.get_item_Array_int h1 (Block l) i = Fault
                    /\ int_Array.get_item_Array_int h1 NULL i = Done NULL)
  /\ (forall h l a,
     blocks h !! l = Some a ->
     exists h1,
       generic_Array.free_Array h (Some (Block l)) = Done (h1, Some NULL)
       /\ blocks h1 !! l = None
       /\ (forall l', l' <> l -> blocks h1 !! l' = blocks h !! l')
       /\ room h1 = room h + generic_Array.block_size a
       /\ forall i, generic_Array.get_item_Array h1 (Block l) i = Fault
                    /\ generic_Array.get_item_Array h1 NULL i = Done NULL).
Proof.
  split; intros h l a Hl.
  - rewrite free_Array_int_Block, (free_live _ h l a Hl). simpl.
    eexists. split; [reflexivity|]. simpl.
    split; [apply lookup_delete_eq|].
    split; [intros l' Hne; by apply lookup_delete_ne|].
    split; [done|]. intros i. split; [|done].
    unfold int_Array.get_item_Array_int. simpl. by rewrite lookup_delete_eq.
  - rewrite free_Array_Block, (free_live _ h l a Hl). simpl.
    eexists. split; [reflexivity|]. simpl.
    split; [apply lookup_delete_eq|].
    split; [intros l' Hne; by apply lookup_delete_ne|].
    split; [done|]. intros i. split; [|done].
    unfold generic_Array.get_item_Array. simpl. by rewrite lookup_delete_eq.
Qed.

Lemma free_plain_releases_block_witness :
  let a := int_Array.mkArray_int 2 [Some 7; None] in
  let h : heap int_Array.Array_int := mkHeap {[1%positive := a]} 84 0 [] in
  blocks h !! 1%positive = Some a
  /\ exists h1,
       int_Array.free_Array_int h (Some (Block 1%positive)) = Done (h1, Some NULL)
       /\ room h1 = 100
       /\ int_Array.get_item_Array_int h1 (Block 1%positive) 0 = Fault.
Proof.
  intros a h.
  assert (Hl : blocks h !! 1%positive = Some a) by reflexivity.
  split; [exact Hl|].
  destruct (proj1 free_plain_releases_block h 1%positive a Hl)
    as (h1 & Hf & _ & _ & Hroom & Hget).
  exists h1. split; [exact Hf|]. split; [exact Hroom|]. apply Hget.
Defined.

(** X11: destroying a live strict array releases exactly its block and
    resets the handle variable; every operation through a copy of the
    old handle is then undefined. *)
Theorem free_strict_releases_block :
  (forall h l a,
     blocks h !! l = Some a ->
     exists h1,
       int_StrictArray.free_StrictArray_int h (Some (Block l))
       = Done (h1, Some NULL)
       /\ blocks h1 !! l = None
       /\ (forall l', l' <> l -> blocks h1 !! l' = blocks h !! l')
       /\ room h1 = room h + int_StrictArray.block_size a
       /\ (forall v, int_StrictArray.push_back_StrictArray_int h1 (Block l) v = Fault)
       /\ int_StrictArray.pop_back_StrictArray_int h1 (Block l) = Fault
       /\ int_StrictArray.clear_StrictArray_int h1 (Block l) = Fault
       /\ (forall i, 0 <= i ->
             int_StrictArray.get_item_StrictArray_int h1 (Block l) i = Fault))
  /\ (forall h l a,
     blocks h !! l = Some a ->
     exists h1,
       generic_StrictArray.free_StrictArray h (Some (Block l))
       = Done (h1, Some NULL)
       /\ blocks h1 !! l = None
       /\ (forall l', l' <> l -> blocks h1 !! l' = blocks h !! l')
       /\ room h1 = room h + generic_StrictArray.block_size a
       /\ (forall v, generic_StrictArray.push_back_StrictArray h1 (Block l) v = Fault)
       /\ generic_StrictArray.pop_back_StrictArray h1 (Block l) = Fault
       /\ generic_StrictArray.clear_StrictArray h1 (Block l) = Fault
       /\ (forall i, generic_StrictArray.get_item h1 (Block l) i = Fault)).
Proof.
  split; intros h l a Hl.
  - rewrite free_StrictArray_int_Block, (free_live _ h l a Hl). simpl.
    eexists. split; [reflexivity|]. simpl.
    split; [apply lookup_delete_eq|].
    split; [intros l' Hne; by apply lookup_delete_ne|].
    split; [done|].
    split; [intros v; unfold int_StrictArray.push_back_StrictArray_int; simpl;
            by rewrite lookup_delete_eq|].
    split; [unfold int_StrictArray.pop_back_StrictArray_int; simpl;
            by rewrite lookup_delete_eq|].
    split; [unfold int_StrictArray.clear_StrictArray_int; simpl;
            by rewrite lookup_delete_eq|].
    intros i Hi. unfold int_StrictArray.get_item_StrictArray_int.
    assert (E : (i <? 0) = false) by (apply Z.ltb_ge; lia). rewrite E.
    simpl. by rewrite lookup_delete_eq.
  - rewrite free_StrictArray_Block, (free_live _ h l a Hl). simpl.
    eexists. split; [reflexivity|]. simpl.
    split; [apply lookup_delete_eq|].
    split; [intros l' Hne; by apply lookup_delete_ne|].
    split; [done|].
    split; [intros v; unfold generic_StrictArray.push_back_StrictArray; simpl;
            by rewrite lookup_delete_eq|].
    split; [unfold generic_StrictArray.pop_back_StrictArray; simpl;
            by rewrite lookup_delete_eq|].
    split; [unfold generic_StrictArray.clear_StrictArray; simpl;
            by rewrite lookup_delete_eq|].
    intros i. unfold generic_StrictArray.get_item.
    destruct (i <? 0); simpl; by rewrite lookup_delete_eq.
Qed.

Lemma free_strict_releases_block_witness :
  let a := int_StrictArray.mkStrictArray_int 1 2 [Some 7; None] in
  let h : heap int_StrictArray.StrictArray_int :=
    mkHeap {[1%positive := a]} 76 0 [] in
  blocks h !! 1%positive = Some a
  /\ exists h1,
       int_StrictArray.free_StrictArray_int h (Some (Block 1%positive))
       = Done (h1, Some NULL)
       /\ room h1 = 100
       /\ int_StrictArray.push_back_StrictArray_int h1 (Block 1%positive) 9 = Fault.
Proof.
  intros a h.
  assert (Hl : blocks h !! 1%positive = Some a) by reflexivity.
  split; [exact Hl|].
  destruct (proj1 free_strict_releases_block h 1%positive a Hl)
    as (h1 & Hf & _ & _ & Hroom & Hpush & _).
  exists h1. split; [exact Hf|]. split; [exact Hroom|]. apply Hpush.
Defined.

(** ** Appending to and removing from an int strict array *)

Section int_StrictArray_more.
Import int_StrictArray.
Implicit Types (h : heap StrictArray_int) (a : StrictArray_int).

(** Reading through [get] below [size] is reading the payload cell. *)
Lemma int_strict_read_data h l a i :
  blocks h !! l = Some a -> 0 <= i < size a ->
  (get_item_StrictArray_int h (Block l) i ≫= load h)
  = from_option Done Fault (data a !! Z.to_nat i).
Proof.
  intros Hl Hi. rewrite (get_item_StrictArray_int_in h l a); [|done..].
  simpl. rewrite Hl. simpl.
  assert (E : (i <? 0) = false) by (apply Z.ltb_ge; lia). rewrite E.
  by destruct (data a !! Z.to_nat i).
Qed.

Lemma int_updated_lookup h l a' :
  blocks (mkHeap (<[l := a']> (blocks h)) (room h) (junk h) (stdout h)) !! l
  = Some a'.
Proof. simpl. apply lookup_insert_eq. Qed.

(** The payload after a run of appends: the values, in order, from the
    old [size] on; everything else as before. *)
Lemma int_append_all_data values : forall h l a,
  blocks h !! l = Some a -> wf a ->
  size a + Z.of_nat (length values) <= capacity a ->
  exists h' a',
    append_all h (Block l) values = Done (h', replicate (length values) NO_ERROR)
    /\ blocks h' !! l = Some a' /\ wf a'
    /\ size a' = size a + Z.of_nat (length values)
    /\ capacity a' = capacity a
    /\ (forall j, (j < length values)%nat ->
          data a' !! (Z.to_nat (size a) + j)%nat = Some <$> values !! j)
    /\ (forall i, (i < Z.to_nat (size a))%nat -> data a' !! i = data a !! i)
    /\ (forall l', l' <> l -> blocks h' !! l' = blocks h !! l').
Proof.
  induction values as [|v values IH]; intros h l a Hl Hwf Hlen; simpl in *.
  - exists h, a. split; [done|]. split; [done|]. split; [done|].
    split; [lia|]. split; [done|]. split; [lia|]. done.
  - pose proof Hwf as (H0 & Hdata & Hfit).
    rewrite (push_back_StrictArray_int_room h l a); [|done|done|lia]. simpl.
    set (a1 := mkStrictArray_int (size a + 1) (capacity a)
                 (<[Z.to_nat (size a) := Some v]> (data a))).
    set (h1 := mkHeap (<[l := a1]> (blocks h)) (room h) (junk h) (stdout h)).
    destruct (IH h1 l a1)
      as (h' & a' & Happ & Hl' & Hwf' & Hs' & Hc' & Hnew & Hold & Hframe).
    + apply int_updated_lookup.
    + unfold wf, a1. simpl. rewrite length_insert. lia.
    + unfold a1. simpl. lia.
    + rewrite Happ. simpl. exists h', a'. split; [done|]. split; [done|].
      split; [done|]. unfold a1 in *. simpl in *.
      split; [lia|]. split; [done|]. split; [|split].
      * intros [|j] Hj; simpl.
        -- rewrite Hold; [|lia]. rewrite Nat.add_0_r.
           apply list_lookup_insert_eq. unfold cell in *. lia.
        -- rewrite <- (Hnew j); [|lia]. f_equal. lia.
      * intros i Hi. rewrite Hold; [|lia]. apply list_lookup_insert_ne. lia.
      * intros l' Hne. rewrite (Hframe l' Hne). simpl. by rewrite lookup_insert_ne.
Qed.

End int_StrictArray_more.

(** X12: a successful append to an int strict array makes the value
    readable through [get] at the old size, where [get] returned the
    null pointer before; [get] at the new size returns the null pointer
    and every element below the old size reads as before. *)
Theorem push_back_int_then_get h l a v :
  blocks h !! l = Some a -> int_StrictArray.wf a ->
  int_StrictArray.size a < int_StrictArray.capacity a ->
  exists h',
    int_StrictArray.push_back_StrictArray_int h (Block l) v = Done (h', NO_ERROR)
    /\ int_StrictArray.get_item_StrictArray_int h (Block l) (int_StrictArray.size a)
       = Done NULL
    /\ (int_StrictArray.get_item_StrictArray_int h' (Block l) (int_StrictArray.size a)
          ≫= int_StrictArray.load h') = Done (Some v)
    /\ int_StrictArray.get_item_StrictArray_int h' (Block l)
         (int_StrictArray.size a + 1) = Done NULL
    /\ forall i, 0 <= i < int_StrictArray.size a ->
         (int_StrictArray.get_item_StrictArray_int h' (Block l) i
            ≫= int_StrictArray.load h')
         = (int_StrictArray.get_item_StrictArray_int h (Block l) i
              ≫= int_StrictArray.load h).
Proof.
  intros Hl Hwf Hroom. pose proof Hwf as (H0 & Hdata & Hfit).
  rewrite (push_back_StrictArray_int_room h l a); [|done..].
  eexists. split; [reflexivity|].
  split; [apply (get_item_StrictArray_int_out h l a); [done|lia]|].
  split; [|split].
  - erewrite int_strict_read_data; [|apply int_updated_lookup|simpl; lia].
    simpl. rewrite list_lookup_insert_eq; [done|lia].
  - eapply get_item_StrictArray_int_out; [apply int_updated_lookup|simpl; lia].
  - intros i Hi.
    erewrite int_strict_read_data; [|apply int_updated_lookup|simpl; lia].
    rewrite (int_strict_read_data h l a); [|done..].
    simpl. rewrite list_lookup_insert_ne; [done|lia].
Qed.

Lemma push_back_int_then_get_witness :
  let a := int_StrictArray.mkStrictArray_int 1 2 [Some 7; None] in
  let h : heap int_StrictArray.StrictArray_int :=
    mkHeap {[1%positive := a]} 76 0 [] in
  (blocks h !! 1%positive = Some a /\ int_StrictArray.wf a
   /\ int_StrictArray.size a < int_StrictArray.capacity a)
  /\ exists h',
       int_StrictArray.push_back_StrictArray_int h (Block 1%positive) 9
       = Done (h', NO_ERROR)
       /\ (int_StrictArray.get_item_StrictArray_int h' (Block 1%positive) 1
             ≫= int_StrictArray.load h') = Done (Some 9).
Proof.
  intros a h.
  assert (Hl : blocks h !! 1%positive = Some a) by reflexivity.
  assert (Hwf : int_StrictArray.wf a).
  { unfold int_StrictArray.wf, int_StrictArray.sizeof_StrictArray_int. simpl.
    machine_lia. }
  assert (Hroom : int_StrictArray.size a < int_StrictArray.capacity a)
    by (simpl; lia).
  split; [done|].
  destruct (push_back_int_then_get h 1%positive a 9 Hl Hwf Hroom)
    as (h' & Hpush & _ & Hget & _).
  exists h'. by split.
Defined.

(** X13: removing the last element right after a successful append
    restores the size, so [get] at that index returns the null pointer
    again and the elements below read as before; the capacity is
    unchanged and the appended value stays in the cell behind the size. *)
Theorem push_back_then_pop_back_int h l a v :
  blocks h !! l = Some a -> int_StrictArray.wf a ->
  int_StrictArray.size a < int_StrictArray.capacity a ->
  exists h1 h2,
    int_StrictArray.push_back_StrictArray_int h (Block l) v = Done (h1, NO_ERROR)
    /\ int_StrictArray.pop_back_StrictArray_int h1 (Block l) = Done h2
    /\ deref h2 (Block l)
       = Done (int_StrictArray.mkStrictArray_int
                 (int_StrictArray.size a) (int_StrictArray.capacity a)
                 (<[Z.to_nat (int_StrictArray.size a) := Some v]>
                    (int_StrictArray.data a)))
    /\ int_StrictArray.get_item_StrictArray_int h2 (Block l) (int_StrictArray.size a)
       = Done NULL
    /\ forall i, 0 <= i < int_StrictArray.size a ->
         (int_StrictArray.get_item_StrictArray_int h2 (Block l) i
            ≫= int_StrictArray.load h2)
         = (int_StrictArray.get_item_StrictArray_int h (Block l) i
              ≫= int_StrictArray.load h).
Proof.
  intros Hl Hwf Hroom. pose proof Hwf as (H0 & Hdata & Hfit).
  rewrite (push_back_StrictArray_int_room h l a); [|done..].
  set (a1 := int_StrictArray.mkStrictArray_int (int_StrictArray.size a + 1) _ _).
  set (h1 := mkHeap (<[l := a1]> (blocks h)) _ _ _).
  assert (Hl1 : blocks h1 !! l = Some a1) by apply int_updated_lookup.
  assert (Hwf1 : int_StrictArray.wf a1).
  { unfold int_StrictArray.wf, a1. simpl. rewrite length_insert. lia. }
  exists h1. eexists. split; [reflexivity|].
  rewrite (pop_back_StrictArray_int_some h1 l a1); [|done|done|simpl; lia].
  split; [reflexivity|].
  unfold h1, a1. simpl. rewrite insert_insert_eq.
  replace (int_StrictArray.size a + 1 - 1) with (int_StrictArray.size a) by lia.
  set (a2 := int_StrictArray.mkStrictArray_int (int_StrictArray.size a) _ _).
  set (h2 := mkHeap (<[l := a2]> (blocks h)) _ _ _).
  assert (Hl2 : blocks h2 !! l = Some a2) by apply int_updated_lookup.
  split; [by rewrite lookup_insert_eq|].
  split; [apply (get_item_StrictArray_int_out h2 l a2); [done|simpl; lia]|].
  intros i Hi.
  rewrite (int_strict_read_data h2 l a2); [|done|simpl; lia].
  rewrite (int_strict_read_data h l a); [|done..].
  simpl. rewrite list_lookup_insert_ne; [done|lia].
Qed.

Lemma push_back_then_pop_back_int_witness :
  let a := int_StrictArray.mkStrictArray_int 1 2 [Some 7; None] in
  let h : heap int_StrictArray.StrictArray_int :=
    mkHeap {[1%positive := a]} 76 0 [] in
  (blocks h !! 1%positive = Some a /\ int_StrictArray.wf a
   /\ int_StrictArray.size a < int_StrictArray.capacity a)
  /\ exists h1 h2,
       int_StrictArray.push_back_StrictArray_int h (Block 1%positive) 9
       = Done (h1, NO_ERROR)
       /\ int_StrictArray.pop_back_StrictArray_int h1 (Block 1%positive) = Done h2
       /\ deref h2 (Block 1%positive)
          = Done (int_StrictArray.mkStrictArray_int 1 2 [Some 7; Some 9]).
Proof.
  intros a h.
  assert (Hl : blocks h !! 1%positive = Some a) by reflexivity.
  assert (Hwf : int_StrictArray.wf a).
  { unfold int_StrictArray.wf, int_StrictArray.sizeof_StrictArray_int. simpl.
    machine_lia. }
  assert (Hroom : int_StrictArray.size a < int_StrictArray.capacity a)
    by (simpl; lia).
  split; [done|].
  destruct (push_back_then_pop_back_int h 1%positive a 9 Hl Hwf Hroom)
    as (h1 & h2 & Hpush & Hpop & Hd & _).
  exists h1, h2. split; [done|]. split; [done|]. exact Hd.
Defined.

(** X14: removing the last element [n] times from an int strict array
    of size [s] runs to completion and leaves size [max 0 (s - n)]:
    it stops at the empty container instead of wrapping around; the
    capacity and the payload are untouched. *)
Theorem pop_back_int_repeated (n : nat) : forall h l a,
  blocks h !! l = Some a -> int_StrictArray.wf a ->
  exists tr h',
    int_StrictArray.run h (Block l) (replicate n int_StrictArray.RemoveLast)
    = Done tr
    /\ last (h :: tr) = Some h'
    /\ deref h' (Block l)
       = Done (int_StrictArray.mkStrictArray_int
                 (Z.max 0 (int_StrictArray.size a - Z.of_nat n))
                 (int_StrictArray.capacity a) (int_StrictArray.data a)).
Proof.
  induction n as [|n IH]; intros h l a Hl Hwf.
  - exists [], h. split; [done|]. split; [done|].
    rewrite (deref_Block h l a Hl). destruct Hwf as ((H0 & _) & _).
    destruct a as [s c d]. simpl in *. do 2 f_equal. lia.
  - pose proof Hwf as (H0 & Hdata & Hfit).
    simpl replicate. simpl int_StrictArray.run. simpl int_StrictArray.apply_op.
    destruct (decide (int_StrictArray.size a = 0)) as [Hempty|Hsome].
    + rewrite (pop_back_StrictArray_int_empty h l a); [|done..].
      destruct (IH h l a Hl Hwf) as (tr & h' & Hrun & Hlast & Hd).
      exists (h :: tr), h'. split; [simpl; by rewrite Hrun|].
      split; [done|]. rewrite Hd. do 2 f_equal. lia.
    + rewrite (pop_back_StrictArray_int_some h l a); [|done|done|lia].
      set (a1 := int_StrictArray.mkStrictArray_int (int_StrictArray.size a - 1) _ _).
      set (h1 := mkHeap (<[l := a1]> (blocks h)) _ _ _).
      destruct (IH h1 l a1) as (tr & h' & Hrun & Hlast & Hd).
      { apply int_updated_lookup. }
      { unfold int_StrictArray.wf, a1. simpl. lia. }
      exists (h1 :: tr), h'. split; [simpl; by rewrite Hrun|].
      split; [done|]. rewrite Hd. unfold a1. simpl. do 2 f_equal. lia.
Qed.

Lemma pop_back_int_repeated_witness :
  let a := int_StrictArray.mkStrictArray_int 2 3 [Some 7; Some 8; None] in
  let h : heap int_StrictArray.StrictArray_int :=
    mkHeap {[1%positive := a]} 72 0 [] in
  (blocks h !! 1%positive = Some a /\ int_StrictArray.wf a)
  /\ exists tr h',
       int_StrictArray.run h (Block 1%positive)
         (replicate 5 int_StrictArray.RemoveLast) = Done tr
       /\ last (h :: tr) = Some h'
       /\ deref h' (Block 1%positive)
          = Done (int_StrictArray.mkStrictArray_int 0 3 [Some 7; Some 8; None]).
Proof.
  intros a h.
  assert (Hl : blocks h !! 1%positive = Some a) by reflexivity.
  assert (Hwf : int_StrictArray.wf a).
  { unfold int_StrictArray.wf, int_StrictArray.sizeof_StrictArray_int. simpl.
    machine_lia. }
  split; [done|].
  exact (pop_back_int_repeated 5 h 1%positive a Hl Hwf).
Defined.

(** X15: appending as many values as fit into the free slots of an int
    strict array succeeds every time; afterwards [get] reads the [j]-th
    value at index [size + j], the elements below the old size read as
    before, [get] at the new size returns the null pointer, no other
    block has changed, and if the container is now full a further
    append is refused with [NO_SPACE] and changes nothing. *)
Theorem append_all_int_then_get values h l a :
  blocks h !! l = Some a -> int_StrictArray.wf a ->
  int_StrictArray.size a + Z.of_nat (length values) <= int_StrictArray.capacity a ->
  exists h',
    int_StrictArray.append_all h (Block l) values
    = Done (h', replicate (length values) NO_ERROR)
    /\ (forall j v, values !! j = Some v ->
          (int_StrictArray.get_item_StrictArray_int h' (Block l)
             (int_StrictArray.size a + Z.of_nat j) ≫= int_StrictArray.load h')
          = Done (Some v))
    /\ (forall i, 0 <= i < int_StrictArray.size a ->
          (int_StrictArray.get_item_StrictArray_int h' (Block l) i
             ≫= int_StrictArray.load h')
          = (int_StrictArray.get_item_StrictArray_int h (Block l) i
               ≫= int_StrictArray.load h))
    /\ int_StrictArray.get_item_StrictArray_int h' (Block l)
         (int_StrictArray.size a + Z.of_nat (length values)) = Done NULL
    /\ (forall l', l' <> l -> blocks h' !! l' = blocks h !! l')
    /\ (int_StrictArray.size a + Z.of_nat (length values)
        = int_StrictArray.capacity a ->
        forall v, int_StrictArray.push_back_StrictArray_int h' (Block l) v
                  = Done (h', NO_SPACE)).
Proof.
  intros Hl Hwf Hlen. pose proof Hwf as (H0 & Hdata & Hfit).
  destruct (int_append_all_data values h l a Hl Hwf Hlen)
    as (h' & a' & Happ & Hl' & Hwf' & Hs' & Hc' & Hnew & Hold & Hframe).
  exists h'. split; [done|]. split; [|split; [|split; [|split]]].
  - intros j v Hj. pose proof (lookup_lt_Some _ _ _ Hj) as Hlt.
    rewrite (int_strict_read_data h' l a'); [|done|lia].
    replace (Z.to_nat (int_StrictArray.size a + Z.of_nat j))
      with (Z.to_nat (int_StrictArray.size a) + j)%nat by lia.
    unfold int_StrictArray.cell in *. by rewrite (Hnew j Hlt), Hj.
  - intros i Hi.
    rewrite (int_strict_read_data h' l a'); [|done|lia].
    rewrite (int_strict_read_data h l a); [|done..].
    rewrite Hold; [done|lia].
  - apply (get_item_StrictArray_int_out h' l a'); [done|lia].
  - done.
  - intros Hfull v.
    apply (push_back_StrictArray_int_full h' l a'); [done|lia].
Qed.

Lemma append_all_int_then_get_witness :
  let a := int_StrictArray.mkStrictArray_int 1 3 [Some 7; None; None] in
  let h : heap int_StrictArray.StrictArray_int :=
    mkHeap {[1%positive := a]} 72 0 [] in
  (blocks h !! 1%positive = Some a /\ int_StrictArray.wf a
   /\ int_StrictArray.size a + Z.of_nat (length [8; 9])
      <= int_StrictArray.capacity a)
  /\ exists h',
       int_StrictArray.append_all h (Block 1%positive) [8; 9]
       = Done (h', [NO_ERROR; NO_ERROR])
       /\ (int_StrictArray.get_item_StrictArray_int h' (Block 1%positive) 2
             ≫= int_StrictArray.load h') = Done (Some 9)
       /\ int_StrictArray.push_back_StrictArray_int h' (Block 1%positive) 10
          = Done (h', NO_SPACE).
Proof.
  intros a h.
  assert (Hl : blocks h !! 1%positive = Some a) by reflexivity.
  assert (Hwf : int_StrictArray.wf a).
  { unfold int_StrictArray.wf, int_StrictArray.sizeof_StrictArray_int. simpl.
    machine_lia. }
  assert (Hlen : int_StrictArray.size a + Z.of_nat (length [8; 9])
                 <= int_StrictArray.capacity a) by (simpl; lia).
  split; [done|].
  destruct (append_all_int_then_get [8; 9] h 1%positive a Hl Hwf Hlen)
    as (h' & Happ & Hget & _ & _ & _ & Hfull).
  exists h'. split; [exact Happ|].
  split; [exact (Hget 1%nat 9 eq_refl)|]. apply Hfull. reflexivity.
Defined.

(** X16: clearing an int strict array makes [get] return the null
    pointer at every index without giving up the storage: as many
    values as the capacity can be appended again, every append
    succeeds, and [get] then reads them back in order. *)
Theorem clear_int_then_refill values h l a :
  blocks h !! l = Some a -> int_StrictArray.wf a ->
  Z.of_nat (length values) = int_StrictArray.capacity a ->
  exists h0 h',
    int_StrictArray.clear_StrictArray_int h (Block l) = Done h0
    /\ (forall i, 0 <= i ->
          int_StrictArray.get_item_StrictArray_int h0 (Block l) i = Done NULL)
    /\ int_StrictArray.append_all h0 (Block l) values
       = Done (h', replicate (length values) NO_ERROR)
    /\ forall j v, values !! j = Some v ->
         (int_StrictArray.get_item_StrictArray_int h' (Block l) (Z.of_nat j)
            ≫= int_StrictArray.load h') = Done (Some v).
Proof.
  intros Hl Hwf Hlen. pose proof Hwf as (H0 & Hdata & Hfit).
  rewrite (clear_StrictArray_int_spec h l a Hl).
  set (a0 := int_StrictArray.mkStrictArray_int 0 _ _).
  set (h0 := mkHeap (<[l := a0]> (blocks h)) _ _ _).
  assert (Hl0 : blocks h0 !! l = Some a0) by apply int_updated_lookup.
  assert (Hwf0 : int_StrictArray.wf a0).
  { unfold int_StrictArray.wf, a0. simpl. lia. }
  destruct (int_append_all_data values h0 l a0 Hl0 Hwf0)
    as (h' & a' & Happ & Hl' & Hwf' & Hs' & Hc' & Hnew & _); [simpl; lia|].
  exists h0, h'. split; [done|]. split; [|split; [done|]].
  - intros i Hi. apply (get_item_StrictArray_int_out h0 l a0); [done|simpl; lia].
  - intros j v Hj. pose proof (lookup_lt_Some _ _ _ Hj) as Hlt.
    rewrite (int_strict_read_data h' l a'); [|done|simpl in Hs'; lia].
    rewrite Nat2Z.id. specialize (Hnew j Hlt). simpl in Hnew.
    unfold int_StrictArray.cell in *. by rewrite Hnew, Hj.
Qed.

Lemma clear_int_then_refill_witness :
  let a := int_StrictArray.mkStrictArray_int 2 2 [Some 7; Some 8] in
  let h : heap int_StrictArray.StrictArray_int :=
    mkHeap {[1%positive := a]} 76 0 [] in
  (blocks h !! 1%positive = Some a /\ int_StrictArray.wf a
   /\ Z.of_nat (length [3; 4]) = int_StrictArray.capacity a)
  /\ exists h0 h',
       int_StrictArray.clear_StrictArray_int h (Block 1%positive) = Done h0
       /\ int_StrictArray.get_item_StrictArray_int h0 (Block 1%positive) 0 = Done NULL
       /\ int_StrictArray.append_all h0 (Block 1%positive) [3; 4]
          = Done (h', [NO_ERROR; NO_ERROR])
       /\ (int_StrictArray.get_item_StrictArray_int h' (Block 1%positive) 1
             ≫= int_StrictArray.load h') = Done (Some 4).
Proof.
  intros a h.
  assert (Hl : blocks h !! 1%positive = Some a) by reflexivity.
  assert (Hwf : int_StrictArray.wf a).
  { unfold int_StrictArray.wf, int_StrictArray.sizeof_StrictArray_int. simpl.
    machine_lia. }
  assert (Hlen : Z.of_nat (length [3; 4]) = int_StrictArray.capacity a)
    by reflexivity.
  split; [done|].
  destruct (clear_int_then_refill [3; 4] h 1%positive a Hl Hwf Hlen)
    as (h0 & h' & Hclear & Hnull & Happ & Hget).
  exists h0, h'. split; [exact Hclear|]. split; [apply Hnull; lia|].
  split; [exact Happ|]. exact (Hget 1%nat 4 eq_refl).
Defined.

(** ** Clones *)

Section int_StrictArray_frame.
Import int_StrictArray.
Implicit Types (h : heap StrictArray_int) (a : StrictArray_int).

(** An operation on one container leaves every other block alone. *)
Lemma int_apply_op_frame h l1 o h' l :
  apply_op h (Block l1) o = Done h' -> l <> l1 ->
  blocks h' !! l = blocks h !! l.
Proof.
  intros Hop Hne. revert Hop.
  destruct o as [v| |]; simpl;
    unfold push_back_StrictArray_int, pop_back_StrictArray_int,
      clear_StrictArray_int; simpl;
    destruct (blocks h !! l1) as [a|]; simpl; try discriminate.
  - destruct (size a =? capacity a); simpl; [by intros [= <-]|].
    destruct (_ <=? size a); simpl; [discriminate|].
    intros [= <-]. simpl. by rewrite lookup_insert_ne.
  - destruct (size a =? 0); simpl; [by intros [= <-]|].
    intros [= <-]. simpl. by rewrite lookup_insert_ne.
  - intros [= <-]. simpl. by rewrite lookup_insert_ne.
Qed.

Lemma int_run_frame ops : forall h l1 tr l,
  run h (Block l1) ops = Done tr -> l <> l1 ->
  Forall (fun hi => blocks hi !! l = blocks h !! l) tr.
Proof.
  induction ops as [|o ops IH]; intros h l1 tr l; simpl.
  - intros [= <-] _. constructor.
  - intros (h' & Hop & H)%bind_Done Hne.
    apply bind_Done in H as (tr' & Hrun & [= <-]).
    pose proof (int_apply_op_frame h l1 o h' l Hop Hne) as Hf.
    constructor; [done|].
    eapply Forall_impl; [exact (IH h' l1 tr' l Hrun Hne)|].
    simpl. intros hi Hhi. by rewrite Hhi.
Qed.

End int_StrictArray_frame.

(** X17: the clone of an int strict array is a container of its own:
    whatever appends, removals and clears are then applied to the
    clone, the source stays exactly as it was in every heap on the way,
    and the clone stays as it was under operations on the source. *)
Theorem clone_int_strict_independent ops h l a :
  blocks h !! l = Some a -> int_StrictArray.wf a ->
  int_StrictArray.request (int_StrictArray.capacity a) <= room h ->
  exists h1 l1,
    int_StrictArray.from_StrictArray_int h (Block l)
    = Done (h1, mkResult NO_ERROR (Block l1))
    /\ l1 <> l
    /\ (exists tr,
          int_StrictArray.run h1 (Block l1) ops = Done tr
          /\ Forall (fun hi => deref hi (Block l) = Done a) (h1 :: tr))
    /\ (exists tr,
          int_StrictArray.run h1 (Block l) ops = Done tr
          /\ Forall (fun hi => deref hi (Block l1) = Done a) (h1 :: tr)).
Proof.
  intros Hl Hwf Hroom.
  rewrite (from_StrictArray_int_success h l a); [|done..].
  set (l1 := fresh (dom (blocks h))).
  set (h1 := allocated h l1 _ a).
  destruct (lookup_allocated_old h
              (int_StrictArray.request (int_StrictArray.capacity a)) a l a Hl)
    as [Hold Hne]. fold l1 in Hold, Hne. fold h1 in Hold.
  assert (Hnew : blocks h1 !! l1 = Some a) by apply lookup_allocated.
  exists h1, l1. split; [done|]. split; [done|]. split.
  - destruct (int_run_invariant ops h1 (Block l1) (int_StrictArray.capacity a))
      as (tr & Hrun & _).
    { exists a. split; [by apply deref_Block|done]. }
    exists tr. split; [done|].
    constructor; [by apply deref_Block|].
    eapply Forall_impl; [exact (int_run_frame ops h1 l1 tr l Hrun (not_eq_sym Hne))|].
    simpl. intros hi Hhi. apply deref_Block. by rewrite Hhi.
  - destruct (int_run_invariant ops h1 (Block l) (int_StrictArray.capacity a))
      as (tr & Hrun & _).
    { exists a. split; [by apply deref_Block|done]. }
    exists tr. split; [done|].
    constructor; [by apply deref_Block|].
    eapply Forall_impl; [exact (int_run_frame ops h1 l tr l1 Hrun Hne)|].
    simpl. intros hi Hhi. apply deref_Block. by rewrite Hhi.
Qed.

Lemma clone_int_strict_independent_witness :
  let a := int_StrictArray.mkStrictArray_int 1 2 [Some 7; None] in
  let h : heap int_StrictArray.StrictArray_int :=
    mkHeap {[1%positive := a]} 100 0 [] in
  let ops := [int_StrictArray.Append 9; int_StrictArray.Clear] in
  (blocks h !! 1%positive = Some a /\ int_StrictArray.wf a
   /\ int_StrictArray.request (int_StrictArray.capacity a) <= room h)
  /\ exists h1 l1,
       int_StrictArray.from_StrictArray_int h (Block 1%positive)
       = Done (h1, mkResult NO_ERROR (Block l1))
       /\ exists tr,
            int_StrictArray.run h1 (Block l1) ops = Done tr
            /\ Forall (fun hi => deref hi (Block 1%positive) = Done a) (h1 :: tr).
Proof.
  intros a h ops.
  assert (Hl : blocks h !! 1%positive = Some a) by reflexivity.
  assert (Hwf : int_StrictArray.wf a).
  { unfold int_StrictArray.wf, int_StrictArray.sizeof_StrictArray_int. simpl.
    machine_lia. }
  assert (Hroom : int_StrictArray.request (int_StrictArray.capacity a) <= room h).
  { vm_compute. discriminate. }
  split; [done|].
  destruct (clone_int_strict_independent ops h 1%positive a Hl Hwf Hroom)
    as (h1 & l1 & Hc & _ & Hrun & _).
  exists h1, l1. by split.
Defined.

(** X18: cloning a live, well-formed container on a heap without room
    for the copy is answered with [HEAP_FAILURE] by every clone
    function, and the heap, the source included, stays as it was. *)
Theorem clones_heap_failure :
  (forall h l a,
     blocks h !! l = Some a -> int_Array.wf a ->
     room h < int_Array.request (int_Array.capacity a) ->
     exists m, int_Array.from_Array_int h (Block l)
               = Done (h, mkResult HEAP_FAILURE (Lit m)))
  /\ (forall h l a,
     blocks h !! l = Some a -> generic_Array.wf a ->
     room h < generic_Array.request (generic_Array.capacity a)
                (generic_Array.type_size a) ->
     exists m, generic_Array.from_Array h (Block l)
               = Done (h, mkResult HEAP_FAILURE (Lit m)))
  /\ (forall h l a,
     blocks h !! l = Some a ->
     room h < int_StrictArray.request (int_StrictArray.capacity a) ->
     exists m, int_StrictArray.from_StrictArray_int h (Block l)
               = Done (h, mkResult HEAP_FAILURE (Lit m)))
  /\ (forall h l a,
     blocks h !! l = Some a ->
     room h < generic_StrictArray.request (generic_StrictArray.type_size a)
                (generic_StrictArray.capacity a) ->
     exists m, generic_StrictArray.from_StrictArray h (Block l)
               = Done (h, mkResult HEAP_FAILURE (Lit m))).
Proof.
  repeat split; intros h l a Hl.
  - intros (H0 & _) Hroom. unfold int_Array.from_Array_int. simpl.
    rewrite Hl. simpl.
    unfold int_Array.new_Array_int. simpl absent. cbv iota.
    rewrite Z.ltb_irrefl. fold (int_Array.request (int_Array.capacity a)).
    rewrite malloc_no_room; [by eexists|done].
  - intros (H0 & Hts & _) Hroom. unfold generic_Array.from_Array. simpl.
    rewrite Hl. simpl.
    unfold generic_Array.new_Array. simpl absent. cbv iota.
    rewrite Z.ltb_irrefl.
    assert (E : (generic_Array.type_size a <=? 0) = false) by (apply Z.leb_gt; lia).
    rewrite E.
    fold (generic_Array.request (generic_Array.capacity a) (generic_Array.type_size a)).
    rewrite malloc_no_room; [by eexists|done].
  - intros Hroom. unfold int_StrictArray.from_StrictArray_int. simpl.
    rewrite Hl. simpl. rewrite request_comm, malloc_no_room; [by eexists|done].
  - intros Hroom. unfold generic_StrictArray.from_StrictArray. simpl.
    rewrite Hl. simpl.
    rewrite (Z.mul_comm (generic_StrictArray.capacity a)).
    fold (generic_StrictArray.request (generic_StrictArray.type_size a)
            (generic_StrictArray.capacity a)).
    rewrite malloc_no_room; [by eexists|done].
Qed.

Lemma clones_heap_failure_witness :
  let a := generic_StrictArray.mkStrictArray 1 2 2
             [Some x01; Some x02; None; None] in
  let h : heap generic_StrictArray.StrictArray :=
    mkHeap {[1%positive := a]} 27 0 [] in
  (blocks h !! 1%positive = Some a
   /\ room h < generic_StrictArray.request (generic_StrictArray.type_size a)
                 (generic_StrictArray.capacity a))
  /\ generic_StrictArray.from_StrictArray h (Block 1%positive)
     = Done (h, mkResult HEAP_FAILURE
                  (Lit ("AllocationError: Not enough memory in the heap" ++ nl))).
Proof.
  intros a h.
  assert (Hl : blocks h !! 1%positive = Some a) by reflexivity.
  assert (Hroom : room h < generic_StrictArray.request
                             (generic_StrictArray.type_size a)
                             (generic_StrictArray.capacity a))
    by (vm_compute; reflexivity).
  split; [done|].
  destruct (proj2 (proj2 (proj2 clones_heap_failure)) h 1%positive a Hl Hroom)
    as [m Hm].
  rewrite Hm. vm_compute in Hm. by injection Hm as <-.
Defined.

(** ** Elements of the generic containers *)

(** A window that lies inside a copied prefix shows the source. *)
Lemma take_drop_prefix {A} (src rest : list A) (k n m : nat) :
  (k + m <= n)%nat -> (n <= length src)%nat ->
  take m (drop k (take n src ++ rest)) = take m (drop k src).
Proof.
  intros Hk Hn.
  rewrite drop_app_le; [|rewrite length_take; lia].
  rewrite take_app_le; [|rewrite length_drop, length_take; lia].
  rewrite !take_drop_commute, take_take. f_equal. f_equal. lia.
Qed.

Section generic_StrictArray_more.
Import generic_StrictArray.
Implicit Types (h : heap StrictArray) (a : StrictArray).

(** Reading through [get_item] is reading [type_size] bytes at byte
    offset [type_size * index]. *)
Lemma generic_strict_read_data h l a i :
  blocks h !! l = Some a -> wf a -> 0 <= i < capacity a ->
  (get_item h (Block l) i ≫= load h)
  = Done (take (Z.to_nat (type_size a))
            (drop (Z.to_nat (type_size a * i)) (data a))).
Proof.
  intros Hl (H0 & Hts & Hlen & Hfit) Hi.
  rewrite (get_item_never_NULL h l a); [|done|lia]. simpl. rewrite Hl. simpl.
  assert (Hle : 0 <= type_size a * i
                /\ type_size a * i + type_size a <= capacity a * type_size a) by nia.
  rewrite size_t_small; [|unfold sizeof_StrictArray in *; machine_lia].
  assert (E : (type_size a * i <? 0)
              || (Z.of_nat (length (data a)) <? type_size a * i + type_size a)
              = false).
  { apply orb_false_iff. split; apply Z.ltb_ge; lia. }
  by rewrite E.
Qed.

Lemma generic_updated_lookup h l a' :
  blocks (mkHeap (<[l := a']> (blocks h)) (room h) (junk h) (stdout h)) !! l
  = Some a'.
Proof. simpl. apply lookup_insert_eq. Qed.

End generic_StrictArray_more.

(** X19: a successful append to a generic strict array stores the first
    [type_size] bytes of the value as the element at the old size, and
    every element below the old size reads as before. *)
Theorem push_back_generic_then_get h l a v :
  blocks h !! l = Some a -> generic_StrictArray.wf a ->
  generic_StrictArray.size a < generic_StrictArray.capacity a ->
  generic_StrictArray.type_size a <= Z.of_nat (length v) ->
  exists h',
    generic_StrictArray.push_back_StrictArray h (Block l) (Some v)
    = Done (h', NO_ERROR)
    /\ (exists a', deref h' (Block l) = Done a'
          /\ generic_StrictArray.size a' = generic_StrictArray.size a + 1
          /\ generic_StrictArray.capacity a' = generic_StrictArray.capacity a
          /\ generic_StrictArray.type_size a' = generic_StrictArray.type_size a)
    /\ (generic_StrictArray.get_item h' (Block l) (generic_StrictArray.size a)
          ≫= generic_StrictArray.load h')
       = Done (take (Z.to_nat (generic_StrictArray.type_size a)) v)
    /\ forall i, 0 <= i < generic_StrictArray.size a ->
         (generic_StrictArray.get_item h' (Block l) i ≫= generic_StrictArray.load h')
         = (generic_StrictArray.get_item h (Block l) i ≫= generic_StrictArray.load h).
Proof.
  intros Hl Hwf Hroom Hv. pose proof Hwf as (H0 & Hts & Hlen & Hfit).
  rewrite (push_back_StrictArray_room h l a); [|done..].
  set (ts := generic_StrictArray.type_size a) in *.
  set (s := generic_StrictArray.size a) in *.
  set (d' := take (Z.to_nat (ts * s)) (generic_StrictArray.data a) ++ _).
  set (a' := generic_StrictArray.mkStrictArray (s + 1) _ ts d').
  set (h' := mkHeap (<[l := a']> (blocks h)) _ _ _).
  assert (Hl' : blocks h' !! l = Some a') by apply generic_updated_lookup.
  assert (Hle : 0 <= ts * s
                /\ ts * s + ts <= generic_StrictArray.capacity a * ts) by nia.
  assert (Hwf' : generic_StrictArray.wf a').
  { unfold generic_StrictArray.wf, a', d'. simpl.
    rewrite !length_app, !length_take, length_drop. lia. }
  exists h'. split; [done|]. split; [|split].
  - exists a'. split; [by apply deref_Block|done].
  - rewrite (generic_strict_read_data h' l a'); [|done|done|simpl; lia].
    unfold a', d'. simpl. f_equal.
    rewrite drop_app_length'; [|rewrite length_take; lia].
    rewrite take_app_length'; [done|rewrite length_take; lia].
  - intros i Hi.
    rewrite (generic_strict_read_data h' l a'); [|done|done|simpl; lia].
    rewrite (generic_strict_read_data h l a); [|done|done|lia].
    unfold a', d'. simpl. f_equal. fold ts.
    apply take_drop_prefix; nia.
Qed.

Lemma push_back_generic_then_get_witness :
  let a := generic_StrictArray.mkStrictArray 1 2 2
             [Some x01; Some x02; None; None] in
  let h : heap generic_StrictArray.StrictArray :=
    mkHeap {[1%positive := a]} 72 0 [] in
  let v := [Some x05; Some x06] in
  (blocks h !! 1%positive = Some a /\ generic_StrictArray.wf a
   /\ generic_StrictArray.size a < generic_StrictArray.capacity a
   /\ generic_StrictArray.type_size a <= Z.of_nat (length v))
  /\ exists h',
       generic_StrictArray.push_back_StrictArray h (Block 1%positive) (Some v)
       = Done (h', NO_ERROR)
       /\ (generic_StrictArray.get_item h' (Block 1%positive) 1
             ≫= generic_StrictArray.load h') = Done [Some x05; Some x06].
Proof.
  intros a h v.
  assert (Hl : blocks h !! 1%positive = Some a) by reflexivity.
  assert (Hwf : generic_StrictArray.wf a).
  { unfold generic_StrictArray.wf, generic_StrictArray.sizeof_StrictArray. simpl.
    machine_lia. }
  assert (Hroom : generic_StrictArray.size a < generic_StrictArray.capacity a)
    by (simpl; lia).
  assert (Hv : generic_StrictArray.type_size a <= Z.of_nat (length v))
    by (simpl; lia).
  split; [done|].
  destruct (push_back_generic_then_get h 1%positive a v Hl Hwf Hroom Hv)
    as (h' & Hpush & _ & Hget & _).
  exists h'. by split.
Defined.

(** X20: clearing a generic strict array keeps its storage: afterwards
    exactly [capacity] appends of readable values succeed, and the next
    append is refused with [NO_SPACE] and changes nothing. *)
Theorem clear_generic_then_refill values h l a :
  blocks h !! l = Some a -> generic_StrictArray.wf a ->
  Forall (fun v => generic_StrictArray.readable (generic_StrictArray.type_size a)
                     (generic_StrictArray.Append v)) values ->
  Z.of_nat (length values) = generic_StrictArray.capacity a ->
  exists h0 h',
    generic_StrictArray.clear_StrictArray h (Block l) = Done h0
    /\ generic_StrictArray.append_all h0 (Block l) values
       = Done (h', replicate (length values) NO_ERROR)
    /\ forall v, generic_StrictArray.push_back_StrictArray h' (Block l) v
                 = Done (h', NO_SPACE).
Proof.
  intros Hl Hwf Hread Hlen. pose proof Hwf as (H0 & Hts & Hdata & Hfit).
  rewrite (clear_StrictArray_spec h l a Hl).
  set (a0 := generic_StrictArray.mkStrictArray 0 _ _ _).
  set (h0 := mkHeap (<[l := a0]> (blocks h)) _ _ _).
  destruct (generic_append_all_fill values h0 l a0)
    as (h' & a' & Happ & _ & _ & _ & _ & Hfull).
  - apply generic_updated_lookup.
  - unfold generic_StrictArray.wf, a0. simpl. lia.
  - done.
  - simpl. lia.
  - by exists h0, h'.
Qed.

Lemma clear_generic_then_refill_witness :
  let a := generic_StrictArray.mkStrictArray 1 1 2 [Some x01; Some x02] in
  let h : heap generic_StrictArray.StrictArray :=
    mkHeap {[1%positive := a]} 74 0 [] in
  let values := [Some [Some x05; Some x06]] in
  (blocks h !! 1%positive = Some a /\ generic_StrictArray.wf a
   /\ Forall (fun v => generic_StrictArray.readable 2
                         (generic_StrictArray.Append v)) values
   /\ Z.of_nat (length values) = generic_StrictArray.capacity a)
  /\ exists h0 h',
       generic_StrictArray.clear_StrictArray h (Block 1%positive) = Done h0
       /\ generic_StrictArray.append_all h0 (Block 1%positive) values
          = Done (h', [NO_ERROR])
       /\ generic_StrictArray.push_back_StrictArray h' (Block 1%positive)
            (Some [Some x07; Some x08]) = Done (h', NO_SPACE).
Proof.
  intros a h values.
  assert (Hl : blocks h !! 1%positive = Some a) by reflexivity.
  assert (Hwf : generic_StrictArray.wf a).
  { unfold generic_StrictArray.wf, generic_StrictArray.sizeof_StrictArray. simpl.
    machine_lia. }
  assert (Hread : Forall (fun v => generic_StrictArray.readable 2
                                     (generic_StrictArray.Append v)) values).
  { repeat constructor. simpl. lia. }
  assert (Hlen : Z.of_nat (length values) = generic_StrictArray.capacity a)
    by reflexivity.
  split; [done|].
  destruct (clear_generic_then_refill values h 1%positive a Hl Hwf Hread Hlen)
    as (h0 & h' & Hclear & Happ & Hfull).
  exists h0, h'. split; [exact Hclear|]. split; [exact Happ|]. apply Hfull.
Defined.

(** ** What the other constructors build *)

(** X21: a successful [new_StrictArray_int] yields a container of the
    requested size and capacity in which [get] below the size reads the
    corresponding source element and [get] from the size on returns the
    null pointer, also below the capacity; the copied elements are also
    written to standard output. *)
Theorem new_StrictArray_int_contents h src size cap :
  0 <= size <= cap -> size <= Z.of_nat (length src) -> size <= INT_MAX ->
  int_StrictArray.sizeof_StrictArray_int + cap * sizeof_int <= SIZE_MAX ->
  int_StrictArray.request cap <= room h ->
  exists h' l a,
    int_StrictArray.new_StrictArray_int h (Some src) size cap
    = Done (h', mkResult NO_ERROR (Block l))
    /\ deref h' (Block l) = Done a
    /\ int_StrictArray.size a = size /\ int_StrictArray.capacity a = cap
    /\ stdout h' = stdout h ++ take (Z.to_nat size) src
    /\ (forall i, 0 <= i < size ->
          exists c, src !! Z.to_nat i = Some c
            /\ (int_StrictArray.get_item_StrictArray_int h' (Block l) i
                  ≫= int_StrictArray.load h') = Done c)
    /\ (forall i, size <= i ->
          int_StrictArray.get_item_StrictArray_int h' (Block l) i = Done NULL).
Proof.
  intros Hsz Hsrc Hint Hfit Hroom.
  rewrite new_StrictArray_int_success; [|done..].
  set (a := int_StrictArray.mkStrictArray_int size cap _).
  set (l := fresh (dom (blocks h))).
  set (h' := print (allocated h l _ a) _).
  assert (Hl : blocks h' !! l = Some a) by (simpl; apply lookup_insert_eq).
  exists h', l, a. split; [done|]. split; [by apply deref_Block|].
  split; [done|]. split; [done|]. split; [done|]. split.
  - intros i Hi.
    rewrite (int_strict_read_data h' l a); [|done..].
    unfold a. simpl.
    rewrite lookup_app_l; [|rewrite length_take; lia].
    rewrite lookup_take_lt; [|lia].
    destruct (lookup_lt_is_Some_2 src (Z.to_nat i)) as [c Hc]; [lia|].
    exists c. by rewrite Hc.
  - intros i Hi. by apply (get_item_StrictArray_int_out h' l a).
Qed.

Lemma new_StrictArray_int_contents_witness :
  let h : heap int_StrictArray.StrictArray_int := empty_heap 4096 0 in
  let src := [Some 1; Some 2; Some 3] in
  (0 <= 3 <= 3 /\ 3 <= Z.of_nat (length src) /\ 3 <= INT_MAX
   /\ int_StrictArray.sizeof_StrictArray_int + 3 * sizeof_int <= SIZE_MAX
   /\ int_StrictArray.request 3 <= room h)
  /\ exists h' l,
       int_StrictArray.new_StrictArray_int h (Some src) 3 3
       = Done (h', mkResult NO_ERROR (Block l))
       /\ stdout h' = [Some 1; Some 2; Some 3]
       /\ (int_StrictArray.get_item_StrictArray_int h' (Block l) 2
             ≫= int_StrictArray.load h') = Done (Some 3)
       /\ int_StrictArray.get_item_StrictArray_int h' (Block l) 3 = Done NULL.
Proof.
  intros h src.
  assert (H1 : 0 <= 3 <= 3) by lia.
  assert (H2 : 3 <= Z.of_nat (length src)) by (simpl; lia).
  assert (H3 : 3 <= INT_MAX) by (vm_compute; discriminate).
  assert (H4 : int_StrictArray.sizeof_StrictArray_int + 3 * sizeof_int <= SIZE_MAX).
  { vm_compute. discriminate. }
  assert (H5 : int_StrictArray.request 3 <= room h) by (vm_compute; discriminate).
  split; [done|].
  destruct (new_StrictArray_int_contents h src 3 3 H1 H2 H3 H4 H5)
    as (h' & l & a & Hnew & _ & _ & _ & Hout & Hlow & Hhigh).
  exists h', l. split; [exact Hnew|]. split; [exact Hout|].
  destruct (Hlow 2) as (c & Hc & Hread); [lia|]. injection Hc as <-.
  split; [exact Hread|]. apply Hhigh. lia.
Defined.



(** X23: a successful [new_StrictArray] yields a container with the
    requested size, capacity and element size in which [get_item] below
    the size reads the [type_size] bytes of the corresponding source
    element. *)
Theorem new_StrictArray_contents h src ts size cap :
  0 <= size <= cap -> 1 <= ts -> size * ts <= Z.of_nat (length src) ->
  generic_StrictArray.sizeof_StrictArray + ts * cap <= SIZE_MAX ->
  generic_StrictArray.request ts cap <= room h ->
  exists h' l a,
    generic_StrictArray.new_StrictArray h (Some src) ts size cap
    = Done (h', mkResult NO_ERROR (Block l))
    /\ deref h' (Block l) = Done a
    /\ generic_StrictArray.size a = size
    /\ generic_StrictArray.capacity a = cap
    /\ generic_StrictArray.type_size a = ts
    /\ forall i, 0 <= i < size ->
         (generic_StrictArray.get_item h' (Block l) i ≫= generic_StrictArray.load h')
         = Done (take (Z.to_nat ts) (drop (Z.to_nat (ts * i)) src)).
Proof.
  intros Hsz Hts Hsrc Hfit Hroom.
  rewrite new_StrictArray_success; [|done..].
  set (a := generic_StrictArray.mkStrictArray size cap ts _).
  set (l := fresh (dom (blocks h))).
  set (h' := allocated h l _ a).
  assert (Hl : blocks h' !! l = Some a) by apply lookup_allocated.
  assert (Hle : 0 <= size * ts <= ts * cap) by nia.
  assert (Hwf : generic_StrictArray.wf a).
  { unfold generic_StrictArray.wf, a. simpl.
    rewrite length_app, length_take, length_replicate. lia. }
  exists h', l, a. split; [done|]. split; [by apply deref_Block|].
  split; [done|]. split; [done|]. split; [done|].
  intros i Hi.
  rewrite (generic_strict_read_data h' l a); [|done|done|simpl; lia].
  unfold a. simpl. f_equal. apply take_drop_prefix; nia.
Qed.

Lemma new_StrictArray_contents_witness :
  let h : heap generic_StrictArray.StrictArray := empty_heap 4096 0 in
  let src := [Some x01; Some x02; Some x03; Some x04] in
  (0 <= 2 <= 3 /\ 1 <= 2 /\ 2 * 2 <= Z.of_nat (length src)
   /\ generic_StrictArray.sizeof_StrictArray + 2 * 3 <= SIZE_MAX
   /\ generic_StrictArray.request 2 3 <= room h)
  /\ exists h' l,
       generic_StrictArray.new_StrictArray h (Some src) 2 2 3
       = Done (h', mkResult NO_ERROR (Block l))
       /\ (generic_StrictArray.get_item h' (Block l) 1
             ≫= generic_StrictArray.load h') = Done [Some x03; Some x04].
Proof.
  intros h src.
  assert (H1 : 0 <= 2 <= 3) by lia.
  assert (H2 : 1 <= 2) by lia.
  assert (H3 : 2 * 2 <= Z.of_nat (length src)) by (simpl; lia).
  assert (H4 : generic_StrictArray.sizeof_StrictArray + 2 * 3 <= SIZE_MAX).
  { vm_compute. discriminate. }
  assert (H5 : generic_StrictArray.request 2 3 <= room h)
    by (vm_compute; discriminate).
  split; [done|].
  destruct (new_StrictArray_contents h src 2 2 3 H1 H2 H3 H4 H5)
    as (h' & l & a & Hnew & _ & _ & _ & _ & Hget).
  exists h', l. split; [exact Hnew|]. exact (Hget 1 ltac:(lia)).
Defined.

(** X24: when the block size [sizeof(Array) + capacity * type_size]
    does not exceed [SIZE_MAX], a successful [new_Array] yields a
    container in which [get_item_Array] below the count reads the
    [type_size] bytes of the corresponding source element, from the
    count up to the capacity reads [type_size] indeterminate bytes, and
    from the capacity on returns the null pointer. *)
Theorem new_Array_contents h src size cap ts :
  0 <= size <= cap -> 1 <= ts -> size * ts <= Z.of_nat (length src) ->
  generic_Array.sizeof_Array + cap * ts <= SIZE_MAX ->
  generic_Array.request cap ts <= room h ->
  exists h' l,
    generic_Array.new_Array h (Some src) size cap ts
    = Done (h', mkResult NO_ERROR (Block l))
    /\ (forall i, 0 <= i < size ->
          (generic_Array.get_item_Array h' (Block l) i ≫= generic_Array.load h')
          = Done (take (Z.to_nat ts) (drop (Z.to_nat (i * ts)) src)))
    /\ (forall i, size <= i < cap ->
          (generic_Array.get_item_Array h' (Block l) i ≫= generic_Array.load h')
          = Done (replicate (Z.to_nat ts) None))
    /\ (forall i, cap <= i ->
          generic_Array.get_item_Array h' (Block l) i = Done NULL).
Proof.
  intros Hsz Hts Hsrc Hfit Hroom.
  rewrite new_Array_success; [|done..].
  set (a := generic_Array.mkArray cap ts _).
  set (l := fresh (dom (blocks h))).
  set (h' := allocated h l _ a).
  assert (Hl : blocks h' !! l = Some a) by apply lookup_allocated.
  assert (Hle : 0 <= size * ts <= cap * ts) by nia.
  assert (Hwf : generic_Array.wf a).
  { unfold generic_Array.wf, a. simpl.
    rewrite length_app, length_take, length_replicate. lia. }
  exists h', l. split; [done|]. split; [|split].
  - intros i Hi.
    rewrite (generic_Array_read h' l a); [|done|done|simpl; lia].
    unfold a. simpl. f_equal. apply take_drop_prefix; nia.
  - intros i Hi.
    rewrite (generic_Array_read h' l a); [|done|done|simpl; lia].
    unfold a. simpl. f_equal.
    assert (Hi' : size * ts <= i * ts /\ i * ts + ts <= cap * ts) by nia.
    rewrite drop_app_ge; [|rewrite length_take; lia].
    rewrite length_take, drop_replicate, take_replicate. f_equal. lia.
  - intros i Hi. by apply (get_item_Array_out h' l a).
Qed.

Lemma new_Array_contents_witness :
  let h : heap generic_Array.Array := empty_heap 4096 0 in
  let src := [Some x01; Some x02] in
  (0 <= 1 <= 2 /\ 1 <= 2 /\ 1 * 2 <= Z.of_nat (length src)
   /\ generic_Array.sizeof_Array + 2 * 2 <= SIZE_MAX
   /\ generic_Array.request 2 2 <= room h)
  /\ exists h' l,
       generic_Array.new_Array h (Some src) 1 2 2
       = Done (h', mkResult NO_ERROR (Block l))
       /\ (generic_Array.get_item_Array h' (Block l) 0 ≫= generic_Array.load h')
          = Done [Some x01; Some x02]
       /\ (generic_Array.get_item_Array h' (Block l) 1 ≫= generic_Array.load h')
          = Done [None; None]
       /\ generic_Array.get_item_Array h' (Block l) 2 = Done NULL.
Proof.
  intros h src.
  assert (H1 : 0 <= 1 <= 2) by lia.
  assert (H2 : 1 <= 2) by lia.
  assert (H3 : 1 * 2 <= Z.of_nat (length src)) by (simpl; lia).
  assert (H4 : generic_Array.sizeof_Array + 2 * 2 <= SIZE_MAX).
  { vm_compute. discriminate. }
  assert (H5 : generic_Array.request 2 2 <= room h) by (vm_compute; discriminate).
  split; [done|].
  destruct (new_Array_contents h src 1 2 2 H1 H2 H3 H4 H5)
    as (h' & l & Hnew & Hlow & Hmid & Hhigh).
  exists h', l. split; [exact Hnew|].
  split; [exact (Hlow 0 ltac:(lia))|].
  split; [exact (Hmid 1 ltac:(lia))|]. apply Hhigh. lia.
Defined.

(** X25: removing the last element [n] times from a generic strict
    array of size [s] runs to completion and leaves size
    [max 0 (s - n)]; capacity, element size and payload are untouched. *)
Theorem pop_back_generic_repeated (n : nat) : forall h l a,
  blocks h !! l = Some a -> generic_StrictArray.wf a ->
  exists tr h',
    generic_StrictArray.run h (Block l)
      (replicate n generic_StrictArray.RemoveLast) = Done tr
    /\ last (h :: tr) = Some h'
    /\ deref h' (Block l)
       = Done (generic_StrictArray.mkStrictArray
                 (Z.max 0 (generic_StrictArray.size a - Z.of_nat n))
                 (generic_StrictArray.capacity a)
                 (generic_StrictArray.type_size a)
                 (generic_StrictArray.data a)).
Proof.
  induction n as [|n IH]; intros h l a Hl Hwf.
  - exists [], h. split; [done|]. split; [done|].
    rewrite (deref_Block h l a Hl). destruct Hwf as ((H0 & _) & _).
    destruct a as [s c t d]. simpl in *. do 2 f_equal. lia.
  - pose proof Hwf as (H0 & Hts & Hdata & Hfit).
    simpl replicate. simpl generic_StrictArray.run.
    simpl generic_StrictArray.apply_op.
    destruct (decide (generic_StrictArray.size a = 0)) as [Hempty|Hsome].
    + rewrite (pop_back_StrictArray_empty h l a); [|done..].
      destruct (IH h l a Hl Hwf) as (tr & h' & Hrun & Hlast & Hd).
      exists (h :: tr), h'. split; [simpl; by rewrite Hrun|].
      split; [done|]. rewrite Hd. do 2 f_equal. lia.
    + rewrite (pop_back_StrictArray_some h l a); [|done|done|lia].
      set (a1 := generic_StrictArray.mkStrictArray
                   (generic_StrictArray.size a - 1) _ _ _).
      set (h1 := mkHeap (<[l := a1]> (blocks h)) _ _ _).
      destruct (IH h1 l a1) as (tr & h' & Hrun & Hlast & Hd).
      { apply generic_updated_lookup. }
      { unfold generic_StrictArray.wf, a1. simpl. lia. }
      exists (h1 :: tr), h'. split; [simpl; by rewrite Hrun|].
      split; [done|]. rewrite Hd. unfold a1. simpl. do 2 f_equal. lia.
Qed.

Lemma pop_back_generic_repeated_witness :
  let a := generic_StrictArray.mkStrictArray 1 2 2
             [Some x01; Some x02; None; None] in
  let h : heap generic_StrictArray.StrictArray :=
    mkHeap {[1%positive := a]} 72 0 [] in
  (blocks h !! 1%positive = Some a /\ generic_StrictArray.wf a)
  /\ exists tr h',
       generic_StrictArray.run h (Block 1%positive)
         (replicate 3 generic_StrictArray.RemoveLast) = Done tr
       /\ last (h :: tr) = Some h'
       /\ deref h' (Block 1%positive)
          = Done (generic_StrictArray.mkStrictArray 0 2 2
                    [Some x01; Some x02; None; None]).
Proof.
  intros a h.
  assert (Hl : blocks h !! 1%positive = Some a) by reflexivity.
  assert (Hwf : generic_StrictArray.wf a).
  { unfold generic_StrictArray.wf, generic_StrictArray.sizeof_StrictArray. simpl.
    machine_lia. }
  split; [done|].
  exact (pop_back_generic_repeated 3 h 1%positive a Hl Hwf).
Defined.
